(** * Mandelbrot: escape-time kernel and row-claiming work distribution

    A shallow embedding of [src/main.cc].

    Numbers.  The program computes in IEEE-754 binary32 ([float]); one
    sub-expression ([2.0 * z_re * z_im + c_im]) is evaluated in binary64
    because of its [double] literal and rounded back on assignment.  Both
    formats are modelled exactly with the parameterised operations of
    [SpecFloat] (round to nearest, ties to even), assuming the compiler
    evaluates [float] expressions in [float] and does not fuse
    multiply-add.  [int] is a 32-bit signed integer held in [Z]; signed
    overflow and out-of-bounds stores are undefined in C++ and are
    modelled as failure.

    Threads.  The workers only share [nextRow] (read and incremented under
    [stealLock]) and write disjoint cells of [buffer], so the program is
    modelled by an interleaving semantics: a deterministic step function
    per actor (the caller or one worker) and an arbitrary schedule. *)

From Stdlib Require Import ZArith Lia Floats.SpecFloat.
From stdpp Require Import base option list.

Open Scope Z_scope.

(** ** Machine numbers *)

Abbreviation float := spec_float.

(** binary32, the C++ [float]. *)
Module F32.
Definition prec : Z := 24.
Definition emax : Z := 128.

Definition add : float -> float -> float := SFadd prec emax.
Definition sub : float -> float -> float := SFsub prec emax.
Definition mul : float -> float -> float := SFmul prec emax.
Definition div : float -> float -> float := SFdiv prec emax.
Definition sqrt : float -> float := SFsqrt prec emax.
Definition abs : float -> float := SFabs.
Definition eqb : float -> float -> bool := SFeqb.
Definition ltb : float -> float -> bool := SFltb.
(** [a > b] *)
Definition gtb (a b : float) : bool := SFltb b a.

(** Conversion of an integer, as in [float f = n]. *)
Definition of_int (n : Z) : float := binary_normalize prec emax n 0 false.

(** Conversion of a [double] value on assignment to a [float]. *)
Definition of_double (d : float) : float :=
  match d with
  | S754_finite s m e => binary_round prec emax s m e
  | _ => d
  end.

(** Truncation towards zero, the integral part that a conversion to an
    integer type keeps; [None] for infinities and NaN. *)
Definition trunc (f : float) : option Z :=
  match f with
  | S754_zero _ => Some 0
  | S754_finite s m e =>
      let a := match e with
               | Zneg p => Z.shiftr (Zpos m) (Zpos p)
               | _ => Z.shiftl (Zpos m) e
               end in
      Some (if s then - a else a)
  | _ => None
  end.
End F32.

(** binary64, the C++ [double]. *)
Module F64.
Definition prec : Z := 53.
Definition emax : Z := 1024.

Definition add : float -> float -> float := SFadd prec emax.
Definition mul : float -> float -> float := SFmul prec emax.

(** Promotion of a [float] operand: exact, renormalised to 53 bits. *)
Definition of_float (f : float) : float :=
  match f with
  | S754_finite s m e => binary_round prec emax s m e
  | _ => f
  end.

(** The literal [2.0]. *)
Definition two : float := binary_normalize prec emax 2 0 false.
End F64.

Definition INT_MIN : Z := - 2 ^ 31.
Definition INT_MAX : Z := 2 ^ 31 - 1.

(** An [int] result is defined only when it is representable. *)
Definition int_ok (n : Z) : bool := (INT_MIN <=? n) && (n <=? INT_MAX).

Definition checked_int (n : Z) : option Z :=
  if int_ok n then Some n else None.

(** [(int) f]: undefined when the truncated value is not an [int]. *)
Definition int_of_float (f : float) : option Z :=
  match F32.trunc f with
  | Some n => checked_int n
  | None => None
  end.

(** [(unsigned char) f]: undefined when the truncated value is outside
    [0, 255]. *)
Definition uchar_of_float (f : float) : option Z :=
  match F32.trunc f with
  | Some n => if (0 <=? n) && (n <=? 255) then Some n else None
  | None => None
  end.

(** Conversion of an [unsigned] to [int] (modular). *)
Definition int_of_unsigned (u : Z) : Z :=
  let m := u mod 2 ^ 32 in
  if m <? 2 ^ 31 then m else m - 2 ^ 32.

(** ** Constants of the program *)

(** [constexpr float MIN_RE = -2.5] and the other plane boundaries; all
    four literals are exactly representable. *)
Definition MIN_RE : float := binary_normalize F32.prec F32.emax (-5) (-1) false.
Definition MAX_RE : float := F32.of_int 1.
Definition MIN_IM : float := F32.of_int (-1).
Definition MAX_IM : float := F32.of_int 1.

Definition MAX_ITERATIONS : Z := 100000.

Definition THRESHOLD : float := F32.of_int 4.

(** [const int screenWidth = fabs(MAX_RE - MIN_RE) * 400]. The products
    are exact integers (1400 and 800), so evaluating [fabs] in [float] or
    in [double] gives the same [int]. *)
Definition screen_extent (lo hi : float) : Z :=
  default 0 (int_of_float (F32.mul (F32.abs (F32.sub hi lo)) (F32.of_int 400))).

Definition screenWidth : Z := Eval vm_compute in screen_extent MIN_RE MAX_RE.
Definition screenHeight : Z := Eval vm_compute in screen_extent MIN_IM MAX_IM.

(** ** The escape-time kernel (lines 36-49 of [ComputeMandelbrotRow]) *)

(** One pass through the body of the [while] loop up to the test:
<<
    float z_re_temp = z_re * z_re - z_im * z_im + c_re;
    z_im = 2.0 * z_re * z_im + c_im;
    z_re = z_re_temp;
>> *)
Definition orbit_update (c_re c_im z_re z_im : float) : float * float :=
  let z_re_temp := F32.add (F32.sub (F32.mul z_re z_re) (F32.mul z_im z_im)) c_re in
  let z_im' :=
    F32.of_double
      (F64.add (F64.mul (F64.mul F64.two (F64.of_float z_re)) (F64.of_float z_im))
               (F64.of_float c_im)) in
  (z_re_temp, z_im').

(** [z_re * z_re + z_im * z_im > THRESHOLD] *)
Definition escaped (z_re z_im : float) : bool :=
  F32.gtb (F32.add (F32.mul z_re z_re) (F32.mul z_im z_im)) THRESHOLD.

(** The [while (iterations < MAX_ITERATIONS)] loop.  [fuel] bounds the
    number of times the condition is evaluated; [None] is fuel
    exhaustion. *)
Fixpoint escape_loop (fuel : nat) (c_re c_im z_re z_im : float) (iterations : Z)
  : option Z :=
  match fuel with
  | O => None
  | S fuel' =>
      if iterations <? MAX_ITERATIONS then
        let '(z_re', z_im') := orbit_update c_re c_im z_re z_im in
        if escaped z_re' z_im' then Some iterations
        else escape_loop fuel' c_re c_im z_re' z_im' (iterations + 1)
      else Some iterations
  end.

(** Lines 36-49 for one point: [z] starts at [c], the counter at 0. *)
Definition escape_iterations (c_re c_im : float) : option Z :=
  escape_loop (S (Z.to_nat MAX_ITERATIONS)) c_re c_im c_re c_im 0.

(** *** The loop as an orbit

    The values that [z] takes in the loop and the first counter value at
    which the loop leaves, written with the update and the test of the
    loop itself: the form of the loop that the reference of the
    specification (further down) is compared with. *)

(** [orbit c k] is the orbit value after [k] updates; [orbit c 0 = c]. *)
Fixpoint orbit (c : float * float) (k : nat) : float * float :=
  match k with
  | O => c
  | S k' => let '(z_re, z_im) := orbit c k' in orbit_update c.1 c.2 z_re z_im
  end.

Definition orbit_escaped (c : float * float) (k : nat) : bool :=
  escaped (orbit c k).1 (orbit c k).2.

(** The first counter value [k' >= k] (looking at [n] of them) whose update
    escapes, or [k + n] if none does. *)
Fixpoint first_escape (c : float * float) (k n : nat) : nat :=
  match n with
  | O => k
  | S n' => if orbit_escaped c (S k) then k else first_escape c (S k) n'
  end.

Definition reference_evaluate (c_re c_im : float) (maxIterations : Z) : Z :=
  Z.of_nat (first_escape (c_re, c_im) 0 (Z.to_nat maxIterations)).

(** ** The shared result buffer *)

(** Accesses to [buffer], in program order. *)
Inductive access :=
  | Load (idx : Z)
  | Store (idx : Z).

(** The caller's array together with the history of accesses made to it. *)
Record memory := Memory {
  cells : list float;
  trace : list access
}.

(** [buffer[idx] = v].  Storing outside the array is undefined. *)
Definition store (m : memory) (idx : Z) (v : float) : option memory :=
  if (0 <=? idx) && (idx <? Z.of_nat (length (cells m))) then
    Some (Memory (<[Z.to_nat idx := v]> (cells m)) (trace m ++ [Store idx]))
  else None.

(** ** [ComputeMandelbrotRow] *)

(** [const float scaleX = (MAX_RE - MIN_RE) / width] *)
Definition scaleX (width : Z) : float :=
  F32.div (F32.sub MAX_RE MIN_RE) (F32.of_int width).

(** [const float c_im = MIN_IM + y * (MAX_IM - MIN_IM) / screenHeight] *)
Definition row_c_im (y : Z) : float :=
  F32.add MIN_IM
    (F32.div (F32.mul (F32.of_int y) (F32.sub MAX_IM MIN_IM)) (F32.of_int screenHeight)).

(** [float c_re = MIN_RE + x * scaleX] *)
Definition col_c_re (scaleX : float) (x : Z) : float :=
  F32.add MIN_RE (F32.mul (F32.of_int x) scaleX).

(** [y * width + x], evaluated in [int]. *)
Definition cell_index (width y x : Z) : option Z :=
  match checked_int (y * width) with
  | Some yw => checked_int (yw + x)
  | None => None
  end.

(** The body of the [for] loop (lines 35-51) for one column [x]. *)
Definition ComputeMandelbrotPixel (m : memory) (width y x : Z) (scaleX c_im : float)
  : option memory :=
  let c_re := col_c_re scaleX x in
  match escape_iterations c_re c_im with
  | Some iterations =>
      match cell_index width y x with
      | Some idx => store m idx (F32.of_int iterations)
      | None => None
      end
  | None => None
  end.

(** [for (int x = 0; x < width; ++x)] over the columns [xs]. *)
Fixpoint row_loop (xs : list Z) (m : memory) (width y : Z) (scaleX c_im : float)
  : option memory :=
  match xs with
  | [] => Some m
  | x :: xs' =>
      match ComputeMandelbrotPixel m width y x scaleX c_im with
      | Some m' => row_loop xs' m' width y scaleX c_im
      | None => None
      end
  end.

Definition ComputeMandelbrotRow (m : memory) (width y : Z) : option memory :=
  row_loop (seqZ 0 width) m width y (scaleX width) (row_c_im y).

(** ** [WorkStealing] and [ComputeMandelbrot] as an interleaving semantics *)

(** Where a worker thread stands in [WorkStealing]. *)
Inductive worker :=
  | Claiming                (* at the top of [while (true)], before the lock *)
  | Computing (y x : Z)     (* in [ComputeMandelbrotRow] for row [y], before [x < width] *)
  | Exited.                 (* after [break] *)

(** Where the caller stands in [ComputeMandelbrot]. *)
Inductive caller :=
  | Reserve                 (* before [threads.reserve(numThreads)] *)
  | Spawn (i : Z)           (* in the first loop, before testing [i < numThreads] *)
  | Join (k : nat)          (* in the second loop, before [threads[k].join()] *)
  | Returned.

#[global] Instance worker_eq_dec : EqDecision worker.
Proof. solve_decision. Defined.

#[global] Instance caller_eq_dec : EqDecision caller.
Proof. solve_decision. Defined.

(** The globals [nextRow] and [threads], the caller's [buffer], the
    caller's position, and the history of rows claimed (worker, row). *)
Record world := World {
  nextRow : Z;
  buffer : memory;
  threads : list worker;
  caller_at : caller;
  claims : list (nat * Z)
}.

(** The result of letting one actor make a move. *)
Inductive outcome :=
  | Blocked                 (* the actor cannot move now *)
  | Fault                   (* undefined behaviour or an uncaught exception *)
  | Next (w : world).

Inductive actor :=
  | Caller
  | Worker (t : nat).

Section Pass.
(** The arguments of [ComputeMandelbrot] and the value reported by
    [std::thread::hardware_concurrency()]. *)
Variables (width height : Z) (hardware_concurrency : Z).

Definition numThreads : Z := int_of_unsigned hardware_concurrency.

Definition set_thread (w : world) (t : nat) (s : worker) : list worker :=
  <[t := s]> (threads w).

(** One move of worker [t]: the guarded claim (lines 59-70, atomic under
    [stealLock]), one column of its row, or leaving the row. *)
Definition WorkStealing_step (t : nat) (w : world) : outcome :=
  match threads w !! t with
  | None => Blocked
  | Some Exited => Blocked
  | Some Claiming =>
      let claim := nextRow w <? height in
      let rowToProcess := if claim then nextRow w else -1 in
      let nextRow' := if claim then nextRow w + 1 else nextRow w in
      let claims' := if claim then claims w ++ [(t, nextRow w)] else claims w in
      if rowToProcess =? -1 then
        Next (World nextRow' (buffer w) (set_thread w t Exited) (caller_at w) claims')
      else
        Next (World nextRow' (buffer w) (set_thread w t (Computing rowToProcess 0))
                (caller_at w) claims')
  | Some (Computing y x) =>
      if x <? width then
        match ComputeMandelbrotPixel (buffer w) width y x (scaleX width) (row_c_im y) with
        | Some m =>
            Next (World (nextRow w) m (set_thread w t (Computing y (x + 1)))
                    (caller_at w) (claims w))
        | None => Fault
        end
      else
        Next (World (nextRow w) (buffer w) (set_thread w t Claiming) (caller_at w) (claims w))
  end.

(** One move of the caller.  [reserve] with a negative [int] asks for
    more than [max_size()] elements and throws; [join] waits for the
    thread to have exited. *)
Definition ComputeMandelbrot_step (w : world) : outcome :=
  match caller_at w with
  | Reserve =>
      if numThreads <? 0 then Fault
      else Next (World (nextRow w) (buffer w) (threads w) (Spawn 0) (claims w))
  | Spawn i =>
      if i <? numThreads then
        Next (World (nextRow w) (buffer w) (threads w ++ [Claiming]) (Spawn (i + 1))
                (claims w))
      else Next (World (nextRow w) (buffer w) (threads w) (Join 0) (claims w))
  | Join k =>
      match threads w !! k with
      | None => Next (World (nextRow w) (buffer w) (threads w) Returned (claims w))
      | Some Exited =>
          Next (World (nextRow w) (buffer w) (threads w) (Join (S k)) (claims w))
      | Some _ => Blocked
      end
  | Returned => Blocked
  end.

Definition step (a : actor) (w : world) : outcome :=
  match a with
  | Caller => ComputeMandelbrot_step w
  | Worker t => WorkStealing_step t w
  end.

(** Run a schedule: the actors move in the order listed. *)
Fixpoint run (sched : list actor) (w : world) : outcome :=
  match sched with
  | [] => Next w
  | a :: sched' =>
      match step a w with
      | Next w' => run sched' w'
      | o => o
      end
  end.

(** *** The invariant of a pass and its termination measure *)

(** The initial contents of the caller's array. *)
Variable buffer0 : list float.

(** Cell [(x, y)] holds the count of its point and has been stored. *)
Definition pixel_done (m : memory) (y x : Z) : Prop :=
  exists n,
    escape_iterations (col_c_re (scaleX width) x) (row_c_im y) = Some n /\
    cells m !! Z.to_nat (y * width + x) = Some (F32.of_int n) /\
    Store (y * width + x) ∈ trace m.

(** What the caller's position says about the pool. *)
Definition caller_ok (c : caller) (pool : list worker) : Prop :=
  match c with
  | Reserve => pool = []
  | Spawn i => Z.of_nat (length pool) = i /\ 0 <= i <= numThreads
  | Join k =>
      Z.of_nat (length pool) = numThreads /\ (k <= length pool)%nat /\
      forall j, (j < k)%nat -> pool !! j = Some Exited
  | Returned =>
      Z.of_nat (length pool) = numThreads /\
      forall t s, pool !! t = Some s -> s = Exited
  end.

Record invariant (w : world) : Prop := {
  inv_cursor : 0 <= nextRow w <= height;
  inv_claims : (claims w).*2 = seqZ 0 (nextRow w);
  inv_length : length (cells (buffer w)) = length buffer0;
  inv_computing : forall t y x,
    threads w !! t = Some (Computing y x) ->
    0 <= y < nextRow w /\ 0 <= x <= width /\
    forall j, 0 <= j < x -> pixel_done (buffer w) y j;
  inv_owner : forall t t' y x x',
    threads w !! t = Some (Computing y x) ->
    threads w !! t' = Some (Computing y x') -> t = t';
  inv_rows : forall y,
    0 <= y < nextRow w ->
    (exists t x, threads w !! t = Some (Computing y x)) \/
    (forall j, 0 <= j < width -> pixel_done (buffer w) y j);
  inv_trace : forall a,
    a ∈ trace (buffer w) ->
    exists y j,
      a = Store (y * width + j) /\ 0 <= y < nextRow w /\ 0 <= j < width /\
      forall t x, threads w !! t = Some (Computing y x) -> j < x;
  inv_nodup : NoDup (trace (buffer w));
  inv_exited : forall t, threads w !! t = Some Exited -> height <= nextRow w;
  inv_untouched : forall i,
    Store (Z.of_nat i) ∉ trace (buffer w) -> cells (buffer w) !! i = buffer0 !! i;
  inv_caller : caller_ok (caller_at w) (threads w)
}.

(** Moves a worker still has to make, not counting rows yet unclaimed. *)
Definition worker_cost (s : worker) : Z :=
  match s with
  | Claiming => 1
  | Computing _ x => Z.max 0 (width - x) + 2
  | Exited => 0
  end.

Definition workers_cost (pool : list worker) : Z :=
  foldr (fun s acc => worker_cost s + acc) 0 pool.

Definition caller_cost (c : caller) (pool : list worker) : Z :=
  match c with
  | Reserve => 3 * numThreads + 3
  | Spawn i => 3 * numThreads - 2 * i + 2
  | Join k => Z.of_nat (length pool) - Z.of_nat k + 1
  | Returned => 0
  end.

(** An upper bound on the number of moves left in the pass. *)
Definition potential (w : world) : Z :=
  caller_cost (caller_at w) (threads w) + workers_cost (threads w)
  + (height - nextRow w) * (width + 2).
End Pass.

(** The program state when [main] calls [ComputeMandelbrot]: the globals
    have their initialisers ([nextRow(0)], an empty [threads]) and the
    freshly allocated buffer holds arbitrary values. *)
Definition initial (buffer0 : list float) : world :=
  World 0 (Memory buffer0 []) [] Reserve [].

(** ** [GetColorFromIterations] *)

Record Color := RGBA { r : Z; g : Z; b : Z; a : Z }.

(** Modelled from the spec: [raylib.h] is not part of the repository; the
    specification calls this colour black, which in raylib is the opaque
    colour with all three channels zero. *)
Definition BLACK : Color := RGBA 0 0 0 255.

Definition GetColorFromIterations (iterations : float) (maxIterations : Z)
  : option Color :=
  if F32.eqb iterations (F32.of_int maxIterations) then Some BLACK
  else
    let t := F32.div iterations (F32.of_int maxIterations) in
    let t := F32.sqrt t in
    let one_t := F32.sub (F32.of_int 1) t in
    let c255 := F32.of_int 255 in
    match
      uchar_of_float
        (F32.mul (F32.mul (F32.mul (F32.mul (F32.of_int 9) one_t) t) t) c255),
      uchar_of_float
        (F32.mul (F32.mul (F32.mul (F32.mul (F32.of_int 15) one_t) one_t) t) c255),
      uchar_of_float
        (F32.mul (F32.mul (F32.mul (F32.mul (F32.mul (F32.of_int 12) one_t) one_t) one_t) t)
           c255)
    with
    | Some r, Some g, Some b => Some (RGBA r g b 255)
    | _, _, _ => None
    end.

(** ** A single-threaded reference for the pass *)

(** [ComputeMandelbrotRow] called for the rows [ys] one after the other,
    as one thread alone would. *)
Fixpoint rows_in_order (ys : list Z) (m : memory) (width : Z) : option memory :=
  match ys with
  | [] => Some m
  | y :: ys' =>
      match ComputeMandelbrotRow m width y with
      | Some m' => rows_in_order ys' m' width
      | None => None
      end
  end.

(** ** What becomes of a count on the screen *)

Definition Color_eqb (c d : Color) : bool :=
  (r c =? r d) && (g c =? g d) && (b c =? b d) && (a c =? a d).

Inductive drawn :=
  | Undefined               (* a channel does not fit an [unsigned char] *)
  | Black
  | Coloured.

Definition drawn_eqb (d e : drawn) : bool :=
  match d, e with
  | Undefined, Undefined | Black, Black | Coloured, Coloured => true
  | _, _ => false
  end.

(** How [main] draws a cell that holds [count]. *)
Definition drawn_as (count : Z) : drawn :=
  match GetColorFromIterations (F32.of_int count) MAX_ITERATIONS with
  | None => Undefined
  | Some c => if Color_eqb c BLACK then Black else Coloured
  end.

(** The same by ranges of the count (compared with [drawn_as] below, for
    the counts at both ends of the scale). *)
Definition drawn_by_range (count : Z) : drawn :=
  if count =? 0 then Black
  else if count <? 623 then Coloured
  else if count <? 71075 then Undefined
  else if count <? 99913 then Coloured
  else Black.

(** [check] holds of the [n] counts from [from] on. *)
Fixpoint all_counts (check : Z -> bool) (from : Z) (n : nat) : bool :=
  match n with
  | O => true
  | S n' => check from && all_counts check (from + 1) n'
  end.

(** ** The escape-time reference of the specification, spelled out

    Section 4.1 of the specification, independently of the definitions
    above: a point of the plane is a pair of [float]s; [z^2 + c] has the
    real part [z_re^2 - z_im^2 + c_re] and the imaginary part
    [2 z_re z_im + c_im]; a point has escaped when
    [z_re^2 + z_im^2 > threshold].  Every operation is a [float]
    operation, except that the imaginary part, whose factor 2 is the
    [double] literal [2.0], is computed in [double] and rounded to
    [float] once. *)

Definition complex : Type := float * float.

Definition Re (z : complex) : float := fst z.
Definition Im (z : complex) : float := snd z.

(** [z^2 + c] *)
Definition square_plus (z c : complex) : complex :=
  (F32.add (F32.sub (F32.mul (Re z) (Re z)) (F32.mul (Im z) (Im z))) (Re c),
   F32.of_double
     (F64.add (F64.mul (F64.mul F64.two (F64.of_float (Re z))) (F64.of_float (Im z)))
        (F64.of_float (Im c)))).

(** [z_re^2 + z_im^2 > threshold] *)
Definition magnitude_exceeds (threshold : float) (z : complex) : bool :=
  SFltb threshold (F32.add (F32.mul (Re z) (Re z)) (F32.mul (Im z) (Im z))).





(** *** [z^2 + c] and the test on points with integer coordinates *)

(** Equality of two [float] values as data (it tells the zeros apart). *)
Definition float_same (x y : float) : bool :=
  match x, y with
  | S754_zero s, S754_zero s' => Bool.eqb s s'
  | S754_infinity s, S754_infinity s' => Bool.eqb s s'
  | S754_nan, S754_nan => true
  | S754_finite s m e, S754_finite s' m' e' => Bool.eqb s s' && (m =? m')%positive && (e =? e')
  | _, _ => false
  end.

(** On the points [a + b i] and [p + q i] with integer coordinates,
    [square_plus] gives the point [(a^2 - b^2 + p) + (2 a b + q) i] and
    [magnitude_exceeds 4] decides [a^2 + b^2 > 4]. *)
Definition square_plus_is_exact (a b p q : Z) : bool :=
  let z := (F32.of_int a, F32.of_int b) in
  let w := square_plus z (F32.of_int p, F32.of_int q) in
  float_same (Re w) (F32.of_int (a * a - b * b + p)) &&
  float_same (Im w) (F32.of_int (2 * a * b + q)) &&
  Bool.eqb (magnitude_exceeds (F32.of_int 4) z) (4 <? a * a + b * b).

Definition square_plus_is_exact_on (range : list Z) : bool :=
  forallb (fun a => forallb (fun b => forallb (fun p => forallb (fun q =>
    square_plus_is_exact a b p q) range) range) range) range.

(** ** The counts drawn black, by the red and green channels *)

(** The constants of [GetColorFromIterations] as binary32 values. *)
Definition f_one : float := Eval vm_compute in F32.of_int 1.
Definition f_nine : float := Eval vm_compute in F32.of_int 9.
Definition f_fifteen : float := Eval vm_compute in F32.of_int 15.
Definition f_255 : float := Eval vm_compute in F32.of_int 255.
Definition f_max : float := Eval vm_compute in F32.of_int MAX_ITERATIONS.

(** The red and green channels of [GetColorFromIterations] before their
    conversion. *)
Definition red_of (t : float) : float :=
  F32.mul (F32.mul (F32.mul (F32.mul f_nine (F32.sub f_one t)) t) t) f_255.

Definition green_of (t : float) : float :=
  F32.mul (F32.mul (F32.mul (F32.mul f_fifteen (F32.sub f_one t)) (F32.sub f_one t)) t)
    f_255.

Definition is_zero (o : option Z) : bool :=
  match o with Some 0 => true | _ => false end.

(** [count] differs from [MAX_ITERATIONS] as a binary32 value and its
    green or its red channel is not a defined zero: enough for its colour
    not to be black. *)
Definition not_black_check (count : Z) : bool :=
  let iterations := F32.of_int count in
  if F32.eqb iterations f_max then false
  else
    let t := F32.sqrt (F32.div iterations f_max) in
    if is_zero (uchar_of_float (green_of t)) then negb (is_zero (uchar_of_float (red_of t)))
    else true.

(** [count] is drawn black. *)
Definition black_check (count : Z) : bool :=
  match GetColorFromIterations (F32.of_int count) MAX_ITERATIONS with
  | Some c => Color_eqb c BLACK
  | None => false
  end.

(** * Properties *)

(** ** The constants, evaluated *)

Example screen_size : screenWidth = 1400 /\ screenHeight = 800.
Proof. split; reflexivity. Qed.

Example plane_boundaries :
  MIN_RE = S754_finite true 10485760 (-22) /\     (* -2.5 *)
  MAX_RE = S754_finite false 8388608 (-23) /\     (*  1.0 *)
  MIN_IM = S754_finite true 8388608 (-23) /\      (* -1.0 *)
  MAX_IM = S754_finite false 8388608 (-23) /\     (*  1.0 *)
  THRESHOLD = S754_finite false 8388608 (-21).    (*  4.0 *)
Proof. repeat split; reflexivity. Qed.

(** The corner of the picture escapes at once; a point of the period-2
    bulb runs to the bound. *)
Example escape_iterations_corner : escape_iterations MIN_RE MIN_IM = Some 0.
Proof. vm_compute. reflexivity. Qed.

Example escape_iterations_minus_one :
  escape_iterations (F32.of_int (-1)) (F32.of_int 0) = Some MAX_ITERATIONS.
Proof. vm_compute. reflexivity. Qed.

(** ** The kernel *)

Lemma orbit_step c k :
  orbit c (S k) = orbit_update c.1 c.2 (orbit c k).1 (orbit c k).2.
Proof. cbn [orbit]. by destruct (orbit c k). Qed.

(** The loop never returns less than its counter, nor more than the bound. *)
Lemma escape_loop_range fuel c_re c_im z_re z_im iterations n :
  escape_loop fuel c_re c_im z_re z_im iterations = Some n ->
  iterations <= MAX_ITERATIONS ->
  iterations <= n <= MAX_ITERATIONS.
Proof.
  revert z_re z_im iterations.
  induction fuel as [|fuel IH]; intros z_re z_im i Hrun Hi; cbn [escape_loop] in Hrun.
  - discriminate.
  - destruct (Z.ltb_spec i MAX_ITERATIONS) as [Hlt|Hge].
    + destruct (orbit_update c_re c_im z_re z_im) as [z_re' z_im'].
      destruct (escaped z_re' z_im').
      * injection Hrun as <-. lia.
      * apply IH in Hrun; lia.
    + injection Hrun as <-. lia.
Qed.

(** With the counter at [k] and the orbit at its [k]-th value, the loop
    returns the reference count, provided the fuel covers the [n]
    remaining rounds and the final test. *)
Lemma escape_loop_first_escape c n :
  forall k fuel,
    Z.of_nat (k + n) = MAX_ITERATIONS ->
    (n < fuel)%nat ->
    escape_loop fuel c.1 c.2 (orbit c k).1 (orbit c k).2 (Z.of_nat k)
    = Some (Z.of_nat (first_escape c k n)).
Proof.
  induction n as [|n IH]; intros k fuel Hk Hfuel;
    (destruct fuel as [|fuel]; [lia|]); cbn [escape_loop first_escape].
  - destruct (Z.ltb_spec (Z.of_nat k) MAX_ITERATIONS); [lia | done].
  - destruct (Z.ltb_spec (Z.of_nat k) MAX_ITERATIONS); [|lia].
    unfold orbit_escaped. rewrite orbit_step.
    destruct (orbit_update c.1 c.2 (orbit c k).1 (orbit c k).2) as [z_re' z_im'] eqn:Hupd.
    cbn [fst snd]. destruct (escaped z_re' z_im'); [done|].
    replace (Z.of_nat k + 1) with (Z.of_nat (S k)) by lia.
    specialize (IH (S k) fuel). rewrite orbit_step, Hupd in IH.
    apply IH; lia.
Qed.

(** What the reference count is: no update before it escapes, and unless
    it is the bound, the next one does. *)
Lemma first_escape_spec c n :
  forall k,
    (k <= first_escape c k n <= k + n)%nat /\
    (forall j, (k <= j < first_escape c k n)%nat -> orbit_escaped c (S j) = false) /\
    ((first_escape c k n < k + n)%nat -> orbit_escaped c (S (first_escape c k n)) = true).
Proof.
  induction n as [|n IH]; intros k; cbn [first_escape].
  - repeat split; intros; lia.
  - destruct (orbit_escaped c (S k)) eqn:Hesc.
    + repeat split; intros; try lia; done.
    + destruct (IH (S k)) as (Hrange & Hbefore & Hat).
      repeat split; try lia.
      * intros j Hj. destruct (decide (j = k)) as [->|]; [done|]. apply Hbefore. lia.
      * intros Hlt. apply Hat. lia.
Qed.

Lemma escape_iterations_reference c_re c_im :
  escape_iterations c_re c_im = Some (reference_evaluate c_re c_im MAX_ITERATIONS).
Proof.
  unfold escape_iterations, reference_evaluate.
  apply (escape_loop_first_escape (c_re, c_im) (Z.to_nat MAX_ITERATIONS) 0%nat).
  - unfold MAX_ITERATIONS. lia.
  - lia.
Qed.

(** The kernel always returns, and its result is a count within bounds. *)
Lemma escape_iterations_total c_re c_im :
  exists n, escape_iterations c_re c_im = Some n /\ 0 <= n <= MAX_ITERATIONS.
Proof.
  eexists. split; [apply escape_iterations_reference|].
  eapply escape_loop_range; [apply escape_iterations_reference|].
  unfold MAX_ITERATIONS. lia.
Qed.

(** The loop returns the first counter value whose update leaves the
    orbit escaped, or the bound when there is none, and its result lies in
    [0, MAX_ITERATIONS]. *)
Theorem escape_iterations_refines_reference (c_re c_im : float) :
  let count := reference_evaluate c_re c_im MAX_ITERATIONS in
  escape_iterations c_re c_im = Some count /\
  0 <= count <= MAX_ITERATIONS /\
  orbit (c_re, c_im) 0 = (c_re, c_im) /\
  (forall j, 0 <= j < count -> orbit_escaped (c_re, c_im) (S (Z.to_nat j)) = false) /\
  (count < MAX_ITERATIONS -> orbit_escaped (c_re, c_im) (S (Z.to_nat count)) = true).
Proof.
  intros count.
  destruct (escape_iterations_total c_re c_im) as (n & Hn & Hrange).
  rewrite escape_iterations_reference in Hn. injection Hn as Hn. fold count in Hn.
  destruct (first_escape_spec (c_re, c_im) (Z.to_nat MAX_ITERATIONS) 0%nat)
    as (_ & Hbefore & Hat).
  split; [apply escape_iterations_reference|].
  split; [lia|]. split; [done|].
  unfold count, reference_evaluate in *. split.
  - intros j Hj. apply Hbefore. lia.
  - intros Hlt. rewrite Nat2Z.id. apply Hat. lia.
Qed.

(** *** The loop against the reference of the specification *)








(** *** The reference on points with integer coordinates *)

Lemma float_same_eq x y : float_same x y = true -> x = y.
Proof.
  destruct x as [s|s| |s m e], y as [s'|s'| |s' m' e']; cbn; try discriminate; try done.
  - intros H. apply Bool.eqb_prop in H. by subst.
  - intros H. apply Bool.eqb_prop in H. by subst.
  - rewrite !andb_true_iff, Pos.eqb_eq, Z.eqb_eq. intros [[H ->] ->].
    apply Bool.eqb_prop in H. by subst.
Qed.

Lemma square_plus_is_exact_spec a b p q :
  square_plus_is_exact a b p q = true ->
  square_plus (F32.of_int a, F32.of_int b) (F32.of_int p, F32.of_int q)
  = (F32.of_int (a * a - b * b + p), F32.of_int (2 * a * b + q)) /\
  magnitude_exceeds (F32.of_int 4) (F32.of_int a, F32.of_int b) = (4 <? a * a + b * b).
Proof.
  unfold square_plus_is_exact. cbv zeta. intros Hall.
  apply andb_true_iff in Hall as [Hall Htest]. apply andb_true_iff in Hall as [Hre Him].
  apply float_same_eq in Hre, Him. apply Bool.eqb_prop in Htest.
  split; [|exact Htest].
  rewrite (surjective_pairing (square_plus _ _)). unfold Re, Im in *. by rewrite Hre, Him.
Qed.

Lemma square_plus_is_exact_on_spec range :
  square_plus_is_exact_on range = true ->
  forall a b p q, a ∈ range -> b ∈ range -> p ∈ range -> q ∈ range ->
    square_plus_is_exact a b p q = true.
Proof.
  unfold square_plus_is_exact_on. intros Hall a b p q Ha Hb Hp Hq.
  rewrite !list_elem_of_In in *.
  rewrite forallb_forall in Hall. specialize (Hall a Ha).
  rewrite forallb_forall in Hall. specialize (Hall b Hb).
  rewrite forallb_forall in Hall. specialize (Hall p Hp).
  rewrite forallb_forall in Hall. by apply Hall.
Qed.

(** All the points with integer coordinates from -3 to 3 are evaluated. *)
Lemma square_plus_is_exact_upto_3 : square_plus_is_exact_on (seqZ (-3) 7) = true.
Proof. vm_cast_no_check (eq_refl true). Qed.

(** On integer coordinates from -3 to 3 the update of the reference is
    the complex [z^2 + c], computed without error, and its test with the
    threshold 4 is [|z|^2 > 4], strictly. *)
Lemma square_plus_on_integers (a b p q : Z) :
  -3 <= a <= 3 -> -3 <= b <= 3 -> -3 <= p <= 3 -> -3 <= q <= 3 ->
  square_plus (F32.of_int a, F32.of_int b) (F32.of_int p, F32.of_int q)
  = (F32.of_int (a * a - b * b + p), F32.of_int (2 * a * b + q)) /\
  magnitude_exceeds (F32.of_int 4) (F32.of_int a, F32.of_int b) = (4 <? a * a + b * b).
Proof.
  intros Ha Hb Hp Hq. apply square_plus_is_exact_spec.
  apply (square_plus_is_exact_on_spec _ square_plus_is_exact_upto_3);
    apply elem_of_seqZ; lia.
Qed.

(** A point whose orbit does not move and has not escaped runs to the
    bound. *)
Lemma escape_loop_fixed_point c_re c_im z_re z_im :
  orbit_update c_re c_im z_re z_im = (z_re, z_im) ->
  escaped z_re z_im = false ->
  forall fuel iterations,
    iterations <= MAX_ITERATIONS ->
    (Z.to_nat (MAX_ITERATIONS - iterations) < fuel)%nat ->
    escape_loop fuel c_re c_im z_re z_im iterations = Some MAX_ITERATIONS.
Proof.
  intros Hfix Hin. induction fuel as [|fuel IH]; intros i Hi Hfuel; [lia|].
  cbn [escape_loop]. destruct (Z.ltb_spec i MAX_ITERATIONS).
  - rewrite Hfix, Hin. apply IH; lia.
  - f_equal. lia.
Qed.

(** C7: the origin, with [MAX_ITERATIONS = 100000] and
    [THRESHOLD = 4.0], never escapes: the evaluator returns exactly
    100000. *)
Theorem origin_runs_to_the_bound :
  MAX_ITERATIONS = 100000 /\ THRESHOLD = F32.of_int 4 /\
  escape_iterations (F32.of_int 0) (F32.of_int 0) = Some 100000.
Proof.
  split; [done|]. split; [done|].
  unfold escape_iterations.
  rewrite (escape_loop_fixed_point (F32.of_int 0) (F32.of_int 0)); try done.
  unfold MAX_ITERATIONS; lia.
Qed.

(** C8: at [c = (2, 2)] the very first update already escapes, so the
    evaluator returns the counter as it stands then, which is 0. *)
Theorem far_point_escapes_at_once :
  let two := F32.of_int 2 in
  MAX_ITERATIONS = 100000 /\ THRESHOLD = F32.of_int 4 /\
  orbit (two, two) 0 = (two, two) /\
  orbit_escaped (two, two) 1 = true /\
  escape_iterations two two = Some 0.
Proof. repeat split; vm_compute; reflexivity. Qed.

(** From here on the kernel is used through its lemmas only. *)
Opaque escape_iterations.

(** ** Index arithmetic and the buffer *)

Lemma cell_index_inj width y x y' x' :
  0 <= x < width -> 0 <= x' < width ->
  y * width + x = y' * width + x' -> y = y' /\ x = x'.
Proof. intros Hx Hx' Heq. assert (y = y') by nia. subst. lia. Qed.

Lemma seqZ_snoc n : 0 <= n -> seqZ 0 (n + 1) = seqZ 0 n ++ [n].
Proof.
  intros Hn. replace (n + 1) with (Z.of_nat (S (Z.to_nat n))) by lia.
  rewrite seqZ_S, Z2Nat.id by done. done.
Qed.

Lemma Store_inj idx idx' : Store idx = Store idx' -> idx = idx'.
Proof. congruence. Qed.

#[global] Instance Store_Inj : Inj (=) (=) Store.
Proof. intros idx idx'. apply Store_inj. Qed.

(** Every flat index of the grid is the index of one cell [(x, y)]. *)
Lemma cell_index_split width height idx :
  0 <= width -> 0 <= idx < width * height ->
  exists y x, idx = y * width + x /\ 0 <= y < height /\ 0 <= x < width.
Proof.
  intros Hw Hidx. destruct (decide (width = 0)) as [->|Hpos]; [lia|].
  exists (idx / width), (idx mod width).
  pose proof (Z.div_mod idx width). pose proof (Z.mod_pos_bound idx width).
  assert (0 <= idx / width) by (apply Z.div_pos; lia).
  assert (idx / width < height) by (apply Z.div_lt_upper_bound; lia).
  lia.
Qed.

Lemma int_of_unsigned_id u : 0 <= u <= INT_MAX -> int_of_unsigned u = u.
Proof.
  unfold int_of_unsigned, INT_MAX. intros Hu.
  rewrite Z.mod_small by lia. destruct (Z.ltb_spec u (2 ^ 31)); lia.
Qed.

Lemma cell_index_defined width height y x :
  0 <= width -> width * height <= INT_MAX -> 0 <= y < height -> 0 <= x < width ->
  cell_index width y x = Some (y * width + x).
Proof.
  intros Hw Hint Hy Hx. unfold cell_index, checked_int, int_ok.
  assert (0 <= y * width /\ y * width + x < width * height) as [? ?] by nia.
  assert (INT_MIN <= 0) by (unfold INT_MIN; lia).
  rewrite !(proj2 (Z.leb_le _ _)) by lia. cbn.
  by rewrite !(proj2 (Z.leb_le _ _)) by lia.
Qed.

Lemma store_defined m idx v :
  0 <= idx < Z.of_nat (length (cells m)) ->
  store m idx v = Some (Memory (<[Z.to_nat idx := v]> (cells m)) (trace m ++ [Store idx])).
Proof.
  intros Hidx. unfold store.
  by rewrite (proj2 (Z.leb_le _ _)), (proj2 (Z.ltb_lt _ _)) by lia.
Qed.

Lemma store_inv m idx v m' :
  store m idx v = Some m' ->
  0 <= idx < Z.of_nat (length (cells m)) /\
  m' = Memory (<[Z.to_nat idx := v]> (cells m)) (trace m ++ [Store idx]).
Proof.
  unfold store. destruct (Z.leb_spec 0 idx), (Z.ltb_spec idx (Z.of_nat (length (cells m))));
    cbn; intros [= <-] || discriminate. split; [lia | done].
Qed.

(** ** The pool *)

Lemma workers_cost_snoc width pool s :
  workers_cost width (pool ++ [s]) = workers_cost width pool + worker_cost width s.
Proof.
  unfold workers_cost. induction pool as [|s' pool IH]; cbn; [lia|].
  rewrite IH. lia.
Qed.

Lemma workers_cost_insert width pool t s s' :
  pool !! t = Some s ->
  workers_cost width (<[t := s']> pool)
  = workers_cost width pool - worker_cost width s + worker_cost width s'.
Proof.
  revert t. induction pool as [|s0 pool IH]; intros [|t] Ht; try discriminate.
  - injection Ht as ->. change (<[0%nat := s']> (s :: pool)) with (s' :: pool).
    unfold workers_cost. cbn [foldr]. lia.
  - change (<[S t := s']> (s0 :: pool)) with (s0 :: <[t := s']> pool).
    change (workers_cost width (s0 :: <[t := s']> pool))
      with (worker_cost width s0 + workers_cost width (<[t := s']> pool)).
    change (workers_cost width (s0 :: pool))
      with (worker_cost width s0 + workers_cost width pool).
    rewrite (IH t Ht). lia.
Qed.

Lemma worker_cost_nonneg width s : 0 <= worker_cost width s.
Proof. destruct s; cbn; lia. Qed.

Lemma workers_cost_nonneg width pool : 0 <= workers_cost width pool.
Proof.
  unfold workers_cost. induction pool as [|s pool IH]; cbn; [lia|].
  pose proof (worker_cost_nonneg width s). lia.
Qed.

(** A worker that has not exited can be moved without upsetting what
    the caller knows about the pool. *)
Lemma caller_ok_insert hc c pool t s s' :
  caller_ok hc c pool -> pool !! t = Some s -> s <> Exited ->
  caller_ok hc c (<[t := s']> pool).
Proof.
  intros Hok Ht Hs. destruct c as [|i|k|]; cbn in *.
  - subst. discriminate.
  - by rewrite length_insert.
  - rewrite length_insert. destruct Hok as (Hlen & Hk & Hdone).
    repeat split; try done. intros j Hj.
    destruct (decide (t = j)) as [->|Hne].
    + specialize (Hdone j Hj). congruence.
    + rewrite list_lookup_insert_ne by done. by apply Hdone.
  - destruct Hok as [_ Hall]. apply Hall in Ht. done.
Qed.

(** What the caller knows about the pool survives every move, whatever
    the grid. *)
Lemma ComputeMandelbrot_step_caller_ok hc w w' :
  caller_ok hc (caller_at w) (threads w) ->
  ComputeMandelbrot_step hc w = Next w' ->
  caller_ok hc (caller_at w') (threads w') /\
  nextRow w' = nextRow w /\ buffer w' = buffer w /\ claims w' = claims w /\
  (threads w' = threads w \/ threads w' = threads w ++ [Claiming]).
Proof.
  intros Hmain Hstep. unfold ComputeMandelbrot_step in Hstep.
  destruct (caller_at w) as [|i|k|] eqn:Hpc; cbn in Hmain; try discriminate.
  - destruct (Z.ltb_spec (numThreads hc) 0); [discriminate|].
    injection Hstep as <-. cbn. rewrite Hmain. cbn. repeat split; auto; lia.
  - destruct (Z.ltb_spec i (numThreads hc)); injection Hstep as <-; cbn.
    + rewrite length_app. cbn. repeat split; auto; lia.
    + repeat split; auto; intros; lia.
  - destruct Hmain as (Hlen & Hk & Hdone).
    destruct (threads w !! k) as [[| |]|] eqn:Hth; try discriminate;
      injection Hstep as <-; cbn.
    + pose proof (lookup_lt_Some _ _ _ Hth). repeat split; auto; try lia.
      intros j Hj. destruct (decide (j = k)) as [->|]; [done|]. apply Hdone. lia.
    + apply lookup_ge_None in Hth. repeat split; auto. intros t s Hl.
      pose proof (lookup_lt_Some _ _ _ Hl). rewrite Hdone in Hl by lia. congruence.
Qed.

Lemma WorkStealing_step_caller_ok width height hc t w w' :
  caller_ok hc (caller_at w) (threads w) ->
  WorkStealing_step width height t w = Next w' ->
  caller_ok hc (caller_at w') (threads w').
Proof.
  intros Hmain Hstep. unfold WorkStealing_step, set_thread in Hstep.
  destruct (threads w !! t) as [[|y x|]|] eqn:Ht; try discriminate.
  - destruct (nextRow w <? height);
      [destruct (nextRow w =? -1) | change (-1 =? -1) with true in Hstep];
      injection Hstep as <-; cbn; by eapply caller_ok_insert.
  - destruct (x <? width).
    + destruct (ComputeMandelbrotPixel _ _ _ _ _ _); [|discriminate].
      injection Hstep as <-. cbn. by eapply caller_ok_insert.
    + injection Hstep as <-. cbn. by eapply caller_ok_insert.
Qed.

Lemma run_caller_ok width height hc sched :
  forall w w',
    caller_ok hc (caller_at w) (threads w) ->
    run width height hc sched w = Next w' ->
    caller_ok hc (caller_at w') (threads w').
Proof.
  induction sched as [|a sched IH]; intros w w' Hmain Hrun; cbn in Hrun.
  - by injection Hrun as <-.
  - destruct (step width height hc a w) as [| |w1] eqn:Hstep; try discriminate.
    eapply IH; [|done]. destruct a; cbn in Hstep.
    + by eapply ComputeMandelbrot_step_caller_ok.
    + by eapply WorkStealing_step_caller_ok.
Qed.

(** ** The pass preserves its invariant *)

Section PassProperties.
Variables (width height hc : Z) (buffer0 : list float).
Hypothesis Hwidth : 0 <= width.
Hypothesis Hheight : 0 <= height.
Hypothesis Hsize : Z.of_nat (length buffer0) = width * height.
Hypothesis Hint : width * height <= INT_MAX.

Local Abbreviation inv := (invariant width height hc buffer0).

Local Arguments numThreads : simpl never.
Local Arguments workers_cost : simpl never.

Local Ltac pool_lookup H :=
  apply list_lookup_insert_Some in H as [(<- & H & ?)|(? & H)].

Lemma pixel_done_store_other m idx v y x :
  0 <= idx -> 0 <= y * width + x -> idx <> y * width + x ->
  pixel_done width m y x ->
  pixel_done width (Memory (<[Z.to_nat idx := v]> (cells m)) (trace m ++ [Store idx])) y x.
Proof.
  intros Hidx Hyx Hne (n & Hn & Hcell & Hin). exists n. cbn.
  split; [done|]. split.
  - rewrite list_lookup_insert_ne by lia. done.
  - apply elem_of_app. by left.
Qed.

Lemma pixel_done_store_here m y x n :
  escape_iterations (col_c_re (scaleX width) x) (row_c_im y) = Some n ->
  0 <= y * width + x < Z.of_nat (length (cells m)) ->
  pixel_done width
    (Memory (<[Z.to_nat (y * width + x) := F32.of_int n]> (cells m))
            (trace m ++ [Store (y * width + x)])) y x.
Proof.
  intros Hn Hidx. exists n. cbn. split; [done|]. split.
  - apply list_lookup_insert_eq. lia.
  - apply elem_of_app. right. by apply list_elem_of_singleton.
Qed.

(** Inside the grid the pixel body is defined, and stores the count of
    its point at [y * width + x]. *)
Lemma ComputeMandelbrotPixel_defined m y x :
  length (cells m) = length buffer0 -> 0 <= y < height -> 0 <= x < width ->
  exists n,
    escape_iterations (col_c_re (scaleX width) x) (row_c_im y) = Some n /\
    0 <= n <= MAX_ITERATIONS /\
    ComputeMandelbrotPixel m width y x (scaleX width) (row_c_im y)
    = Some (Memory (<[Z.to_nat (y * width + x) := F32.of_int n]> (cells m))
                   (trace m ++ [Store (y * width + x)])).
Proof.
  intros Hlen Hy Hx.
  destruct (escape_iterations_total (col_c_re (scaleX width) x) (row_c_im y))
    as (n & Hn & Hrange).
  exists n. split; [done|]. split; [done|].
  unfold ComputeMandelbrotPixel. rewrite Hn.
  rewrite (cell_index_defined width height) by done.
  apply store_defined. rewrite Hlen. nia.
Qed.

Lemma initial_invariant : inv (initial buffer0).
Proof.
  constructor; cbn; try done.
  - lia.
  - intros a Ha. by apply elem_of_nil in Ha.
  - constructor.
Qed.

Lemma WorkStealing_step_invariant t w w' :
  inv w -> WorkStealing_step width height t w = Next w' -> inv w'.
Proof.
  intros [Hcur Hcl Hlen Hcomp Hown Hrows Htr Hnd Hex Hunt Hmain] Hstep.
  unfold WorkStealing_step, set_thread in Hstep.
  destruct (threads w !! t) as [[|y x|]|] eqn:Ht; try discriminate.
  - (* the guarded claim *)
    destruct (Z.ltb_spec (nextRow w) height) as [Hrow|Hnone].
    + (* a row is claimed *)
      rewrite (proj2 (Z.eqb_neq _ _)) in Hstep by lia.
      injection Hstep as <-. constructor; cbn.
      * lia.
      * rewrite fmap_app, Hcl. cbn.
        by rewrite seqZ_snoc by lia.
      * done.
      * intros t' y x Hl. pool_lookup Hl.
        -- injection Hl as <- <-. repeat split; intros; lia.
        -- destruct (Hcomp _ _ _ Hl) as (? & ? & ?). repeat split; try lia; done.
      * intros t1 t2 y x x' H1 H2. pool_lookup H1; pool_lookup H2; try done.
        -- injection H1 as <- <-. apply Hcomp in H2. lia.
        -- injection H2 as <- <-. apply Hcomp in H1. lia.
        -- by eapply Hown.
      * intros y Hy. destruct (decide (y = nextRow w)) as [->|Hne].
        -- left. exists t, 0. apply list_lookup_insert_eq. by eapply lookup_lt_Some.
        -- destruct (Hrows y) as [(t' & x & Hl)|Hd]; [lia| |by right].
           left. exists t', x. rewrite list_lookup_insert_ne; [done|]. congruence.
      * intros a Ha. destruct (Htr a Ha) as (y & j & -> & Hy & Hj & Hlt).
        exists y, j. repeat split; try lia. intros t' x Hl. pool_lookup Hl.
        -- injection Hl as <- <-. lia.
        -- by eapply Hlt.
      * done.
      * intros t' Hl. pool_lookup Hl; [discriminate|]. apply Hex in Hl. lia.
      * done.
      * by eapply caller_ok_insert.
    + (* no row is left: the worker leaves *)
      change (-1 =? -1) with true in Hstep.
      injection Hstep as <-. constructor; cbn; try done.
      * intros t' y x Hl. pool_lookup Hl; [discriminate|]. by eapply Hcomp.
      * intros t1 t2 y x x' H1 H2. pool_lookup H1; pool_lookup H2; try discriminate.
        by eapply Hown.
      * intros y Hy. destruct (Hrows y Hy) as [(t' & x & Hl)|Hd]; [|by right].
        left. exists t', x. rewrite list_lookup_insert_ne; [done|]. congruence.
      * intros a Ha. destruct (Htr a Ha) as (y & j & -> & Hy & Hj & Hlt).
        exists y, j. repeat split; try lia. intros t' x Hl.
        pool_lookup Hl; [discriminate|]. by eapply Hlt.
      * by eapply caller_ok_insert.
  - (* inside a row *)
    destruct (Hcomp _ _ _ Ht) as (Hy & Hx & Hprefix).
    destruct (Z.ltb_spec x width) as [Hcol|Hend].
    + (* one more column *)
      destruct (ComputeMandelbrotPixel_defined (buffer w) y x) as (n & Hn & _ & Hpix);
        [done | lia | lia |].
      rewrite Hpix in Hstep. injection Hstep as <-.
      assert (0 <= y * width + x < Z.of_nat (length (cells (buffer w)))) as Hidx
        by (rewrite Hlen; nia).
      assert (forall y' j, 0 <= y' -> 0 <= j < width -> (y' = y -> j <> x) ->
                pixel_done width (buffer w) y' j ->
                pixel_done width
                  (Memory (<[Z.to_nat (y * width + x) := F32.of_int n]> (cells (buffer w)))
                          (trace (buffer w) ++ [Store (y * width + x)])) y' j) as Hkeep.
      { intros y' j Hy' Hj Hother Hd. apply pixel_done_store_other; try done; try nia.
        intros Heq. symmetry in Heq.
        apply cell_index_inj in Heq as [-> ->]; [by apply Hother | lia | lia]. }
      constructor; cbn; try done.
      * by rewrite length_insert.
      * intros t' y' x' Hl. pool_lookup Hl.
        -- injection Hl as <- <-. repeat split; try lia. intros j Hj.
           destruct (decide (j = x)) as [->|Hne].
           ++ by apply pixel_done_store_here.
           ++ apply Hkeep; [lia | lia | done |]. apply Hprefix. lia.
        -- destruct (Hcomp _ _ _ Hl) as (Hy' & Hx' & Hprefix').
           repeat split; try lia. intros j Hj. apply Hkeep; [lia | lia | | by apply Hprefix'].
           intros ->. by specialize (Hown _ _ _ _ _ Ht Hl).
      * intros t1 t2 y' x1 x2 H1 H2. pool_lookup H1; pool_lookup H2; try done.
        -- injection H1 as <- <-. by eapply Hown.
        -- injection H2 as <- <-. symmetry. by eapply Hown.
        -- by eapply Hown.
      * intros y' Hy'. destruct (decide (y' = y)) as [->|Hne].
        -- left. exists t, (x + 1). apply list_lookup_insert_eq. by eapply lookup_lt_Some.
        -- destruct (Hrows y' Hy') as [(t' & x' & Hl)|Hd].
           ++ left. exists t', x'. rewrite list_lookup_insert_ne; [done|]. congruence.
           ++ right. intros j Hj. apply Hkeep; [lia | lia | done | by apply Hd].
      * intros a Ha. apply elem_of_app in Ha as [Ha|Ha].
        -- destruct (Htr a Ha) as (y' & j & -> & Hy' & Hj & Hlt).
           exists y', j. repeat split; try lia. intros t' x' Hl. pool_lookup Hl.
           ++ injection Hl as <- <-. specialize (Hlt _ _ Ht). lia.
           ++ by eapply Hlt.
        -- apply list_elem_of_singleton in Ha as ->.
           exists y, x. repeat split; try lia. intros t' x' Hl. pool_lookup Hl.
           ++ injection Hl as <-. lia.
           ++ by specialize (Hown _ _ _ _ _ Ht Hl).
      * apply NoDup_app. split; [done|]. split; [|apply NoDup_singleton].
        intros a Ha Hnew. apply list_elem_of_singleton in Hnew as ->.
        destruct (Htr _ Ha) as (y' & j & Heq & Hy' & Hj & Hlt).
        apply Store_inj, cell_index_inj in Heq as [<- <-]; [|lia|lia].
        specialize (Hlt _ _ Ht). lia.
      * intros t' Hl. pool_lookup Hl; [discriminate|]. by eapply Hex.
      * intros i Hi. rewrite list_lookup_insert_ne.
        -- apply Hunt. intros Hin. apply Hi, elem_of_app. by left.
        -- intros <-. apply Hi, elem_of_app. right. apply list_elem_of_singleton.
           f_equal. lia.
      * by eapply caller_ok_insert.
    + (* the row is finished *)
      injection Hstep as <-. constructor; cbn; try done.
      * intros t' y' x' Hl. pool_lookup Hl; [discriminate|]. by eapply Hcomp.
      * intros t1 t2 y' x1 x2 H1 H2. pool_lookup H1; pool_lookup H2; try discriminate.
        by eapply Hown.
      * intros y' Hy'. destruct (decide (y' = y)) as [->|Hne].
        -- right. intros j Hj. apply Hprefix. lia.
        -- destruct (Hrows y' Hy') as [(t' & x' & Hl)|Hd]; [|by right].
           left. exists t', x'. rewrite list_lookup_insert_ne; [done|]. congruence.
      * intros a Ha. destruct (Htr a Ha) as (y' & j & -> & Hy' & Hj & Hlt).
        exists y', j. repeat split; try lia. intros t' x' Hl.
        pool_lookup Hl; [discriminate|]. by eapply Hlt.
      * intros t' Hl. pool_lookup Hl; [discriminate|]. by eapply Hex.
      * by eapply caller_ok_insert.
Qed.

Lemma invariant_set_caller w c :
  inv w -> caller_ok hc c (threads w) ->
  inv (World (nextRow w) (buffer w) (threads w) c (claims w)).
Proof. intros [] Hok. by constructor. Qed.

Lemma invariant_spawn w c :
  inv w -> caller_ok hc c (threads w ++ [Claiming]) ->
  inv (World (nextRow w) (buffer w) (threads w ++ [Claiming]) c (claims w)).
Proof.
  intros [Hcur Hcl Hlen Hcomp Hown Hrows Htr Hnd Hex Hunt Hmain] Hok.
  assert (forall t s, (threads w ++ [Claiming]) !! t = Some s -> s <> Claiming ->
            threads w !! t = Some s) as Hold.
  { intros t s Hl Hs. apply lookup_snoc_Some in Hl as [[_ Hl]|[_ Hl]]; [done|].
    by destruct Hs. }
  constructor; cbn; try done.
  - intros t y x Hl. apply Hold in Hl; [|done]. by eapply Hcomp.
  - intros t t' y x x' H1 H2. apply Hold in H1, H2; try done. by eapply Hown.
  - intros y Hy. destruct (Hrows y Hy) as [(t & x & Hl)|Hd]; [|by right].
    left. exists t, x. by apply lookup_app_l_Some.
  - intros a Ha. destruct (Htr a Ha) as (y & j & -> & Hy & Hj & Hlt).
    exists y, j. repeat split; try lia. intros t x Hl.
    apply Hold in Hl; [|done]. by eapply Hlt.
  - intros t Hl. apply Hold in Hl; [|done]. by eapply Hex.
Qed.

Lemma ComputeMandelbrot_step_invariant w w' :
  inv w -> ComputeMandelbrot_step hc w = Next w' -> inv w'.
Proof.
  intros Hinv Hstep.
  destruct (ComputeMandelbrot_step_caller_ok hc w w' (inv_caller _ _ _ _ _ Hinv) Hstep)
    as (Hok & Hrow & Hbuf & Hcl & Hpool).
  destruct w' as [row' buf' pool' pc' cl']. cbn in *. subst row' buf' cl'.
  destruct Hpool as [-> | ->].
  - by apply invariant_set_caller.
  - by apply invariant_spawn.
Qed.

Lemma step_invariant a w w' : inv w -> step width height hc a w = Next w' -> inv w'.
Proof.
  destruct a; cbn; [apply ComputeMandelbrot_step_invariant | apply WorkStealing_step_invariant].
Qed.

Lemma run_invariant sched :
  forall w w', inv w -> run width height hc sched w = Next w' -> inv w'.
Proof.
  induction sched as [|a sched IH]; intros w w' Hinv Hrun; cbn in Hrun.
  - by injection Hrun as <-.
  - destruct (step width height hc a w) as [| |w1] eqn:Hstep; try discriminate.
    eapply IH; [|done]. by eapply step_invariant.
Qed.

Lemma run_app sched1 sched2 w :
  run width height hc (sched1 ++ sched2) w
  = match run width height hc sched1 w with
    | Next w1 => run width height hc sched2 w1
    | o => o
    end.
Proof.
  revert w. induction sched1 as [|a sched1 IH]; intros w; cbn; [done|].
  destruct (step width height hc a w); try done.
Qed.

(** *** The cursor never moves back *)

Lemma step_cursor_monotone a w w' :
  step width height hc a w = Next w' -> nextRow w <= nextRow w'.
Proof.
  destruct a as [|t]; cbn.
  - unfold ComputeMandelbrot_step.
    destruct (caller_at w) as [|i|k|]; try discriminate.
    + destruct (numThreads hc <? 0); [discriminate|]. intros [= <-]. cbn. lia.
    + destruct (i <? numThreads hc); intros [= <-]; cbn; lia.
    + destruct (threads w !! k) as [[| |]|]; try discriminate; intros [= <-]; cbn; lia.
  - unfold WorkStealing_step.
    destruct (threads w !! t) as [[|y x|]|]; try discriminate.
    + destruct (nextRow w <? height);
        [destruct (nextRow w =? -1) | change (-1 =? -1) with true];
        intros [= <-]; cbn; lia.
    + destruct (x <? width); [|intros [= <-]; cbn; lia].
      destruct (ComputeMandelbrotPixel _ _ _ _ _ _); [|discriminate].
      intros [= <-]. cbn. lia.
Qed.

Lemma run_cursor_monotone sched :
  forall w w', run width height hc sched w = Next w' -> nextRow w <= nextRow w'.
Proof.
  induction sched as [|a sched IH]; intros w w' Hrun; cbn in Hrun.
  - injection Hrun as <-. lia.
  - destruct (step width height hc a w) as [| |w1] eqn:Hstep; try discriminate.
    apply step_cursor_monotone in Hstep. apply IH in Hrun. lia.
Qed.

(** *** No move is undefined, and the pass comes to an end *)

Hypothesis Hhc : 0 <= hc <= INT_MAX.

Lemma step_no_fault a w : inv w -> step width height hc a w <> Fault.
Proof.
  intros Hinv. destruct a as [|t]; cbn.
  - unfold ComputeMandelbrot_step, numThreads. rewrite int_of_unsigned_id by done.
    destruct (caller_at w) as [|i|k|]; try done.
    + destruct (Z.ltb_spec hc 0); [lia | done].
    + by destruct (i <? hc).
    + by destruct (threads w !! k) as [[| |]|].
  - unfold WorkStealing_step.
    destruct (threads w !! t) as [[|y x|]|] eqn:Ht; try done.
    + by destruct (nextRow w <? height);
        [destruct (nextRow w =? -1) | change (-1 =? -1) with true].
    + destruct (Z.ltb_spec x width); [|done].
      destruct (inv_computing _ _ _ _ _ Hinv _ _ _ Ht) as (Hy & Hx & _).
      pose proof (inv_cursor _ _ _ _ _ Hinv).
      destruct (ComputeMandelbrotPixel_defined (buffer w) y x) as (n & _ & _ & ->);
        [by eapply inv_length | lia | lia | done].
Qed.

Lemma run_no_fault sched : forall w, inv w -> run width height hc sched w <> Fault.
Proof.
  induction sched as [|a sched IH]; intros w Hinv; cbn; [done|].
  destruct (step width height hc a w) as [| |w1] eqn:Hstep; [done| |].
  - by apply step_no_fault in Hstep.
  - apply IH. by eapply step_invariant.
Qed.

Lemma caller_cost_insert c pool t s :
  caller_cost hc c (<[t := s]> pool) = caller_cost hc c pool.
Proof. destruct c; cbn; try done. by rewrite length_insert. Qed.

Lemma step_potential a w w' :
  inv w -> step width height hc a w = Next w' ->
  potential width height hc w' < potential width height hc w.
Proof.
  intros Hinv Hstep. pose proof (inv_caller _ _ _ _ _ Hinv) as Hmain.
  pose proof (inv_cursor _ _ _ _ _ Hinv) as Hcur.
  unfold potential. destruct a as [|t]; cbn in Hstep.
  - unfold ComputeMandelbrot_step in Hstep.
    destruct (caller_at w) as [|i|k|] eqn:Hpc; cbn in Hmain; try discriminate.
    + destruct (numThreads hc <? 0); [discriminate|]. injection Hstep as <-. cbn. lia.
    + destruct (Z.ltb_spec i (numThreads hc)); injection Hstep as <-; cbn.
      * rewrite workers_cost_snoc. cbn. lia.
      * lia.
    + destruct Hmain as (Hlen & Hk & Hdone).
      destruct (threads w !! k) as [[| |]|] eqn:Hth; try discriminate;
        injection Hstep as <-; cbn; lia.
  - unfold WorkStealing_step, set_thread in Hstep.
    destruct (threads w !! t) as [[|y x|]|] eqn:Ht; try discriminate.
    + destruct (Z.ltb_spec (nextRow w) height).
      * rewrite (proj2 (Z.eqb_neq _ _)) in Hstep by lia. injection Hstep as <-. cbn.
        rewrite caller_cost_insert, (workers_cost_insert _ _ _ _ _ Ht). cbn. nia.
      * change (-1 =? -1) with true in Hstep. injection Hstep as <-. cbn.
        rewrite caller_cost_insert, (workers_cost_insert _ _ _ _ _ Ht). cbn. lia.
    + destruct (Z.ltb_spec x width).
      * destruct (ComputeMandelbrotPixel _ _ _ _ _ _); [|discriminate].
        injection Hstep as <-. cbn.
        rewrite caller_cost_insert, (workers_cost_insert _ _ _ _ _ Ht). cbn. lia.
      * injection Hstep as <-. cbn.
        rewrite caller_cost_insert, (workers_cost_insert _ _ _ _ _ Ht). cbn. lia.
Qed.

Lemma potential_nonneg w : inv w -> 0 <= potential width height hc w.
Proof.
  intros Hinv. pose proof (inv_caller _ _ _ _ _ Hinv) as Hmain.
  pose proof (inv_cursor _ _ _ _ _ Hinv) as Hcur.
  pose proof (workers_cost_nonneg width (threads w)).
  assert (0 <= caller_cost hc (caller_at w) (threads w)).
  { assert (numThreads hc = hc) as Hn by by apply int_of_unsigned_id.
    destruct (caller_at w); cbn in *; lia. }
  unfold potential. nia.
Qed.

(** Every schedule that can be run is bounded by the potential. *)
Lemma run_potential sched :
  forall w w', inv w -> run width height hc sched w = Next w' ->
    Z.of_nat (length sched) + potential width height hc w'
    <= potential width height hc w.
Proof.
  induction sched as [|a sched IH]; intros w w' Hinv Hrun; cbn in Hrun.
  - injection Hrun as <-. cbn. lia.
  - destruct (step width height hc a w) as [| |w1] eqn:Hstep; try discriminate.
    pose proof (step_potential _ _ _ Hinv Hstep).
    apply IH in Hrun; [|by eapply step_invariant]. cbn [length]. lia.
Qed.

(** As long as the caller has not returned, somebody can move. *)
Lemma progress w :
  inv w -> caller_at w <> Returned -> exists a w', step width height hc a w = Next w'.
Proof.
  intros Hinv Hpc.
  assert (forall a, (exists w', step width height hc a w = Next w') \/
                    step width height hc a w = Blocked) as Hcases.
  { intros a. pose proof (step_no_fault a w Hinv).
    destruct (step width height hc a w); eauto; done. }
  destruct (Hcases Caller) as [[w' Hw']|Hblocked]; [by exists Caller, w'|].
  cbn in Hblocked. unfold ComputeMandelbrot_step in Hblocked.
  destruct (caller_at w) as [|i|k|]; try done.
  - by destruct (numThreads hc <? 0).
  - by destruct (i <? numThreads hc).
  - destruct (threads w !! k) as [[|y x|]|] eqn:Hth; try done;
      (destruct (Hcases (Worker k)) as [[w' Hw']|Hb]; [by exists (Worker k), w'|]);
      cbn in Hb; unfold WorkStealing_step in Hb; rewrite Hth in Hb.
    + by destruct (nextRow w <? height);
        [destruct (nextRow w =? -1) | change (-1 =? -1) with true in Hb].
    + destruct (x <? width); [|done].
      by destruct (ComputeMandelbrotPixel _ _ _ _ _ _).
Qed.

(** From any state of the pass some schedule brings the caller to its
    return. *)
Lemma completion w :
  inv w -> exists sched w', run width height hc sched w = Next w' /\ caller_at w' = Returned.
Proof.
  intros Hinv.
  remember (Z.to_nat (potential width height hc w)) as p eqn:Hp.
  revert w Hinv Hp. induction p as [p IH] using lt_wf_ind. intros w Hinv Hp.
  destruct (decide (caller_at w = Returned)) as [Hret|Hrun].
  - by exists [], w.
  - destruct (progress w Hinv Hrun) as (a & w1 & Hstep).
    pose proof (step_invariant _ _ _ Hinv Hstep) as Hinv1.
    pose proof (step_potential _ _ _ Hinv Hstep).
    pose proof (potential_nonneg _ Hinv1).
    destruct (IH (Z.to_nat (potential width height hc w1))) with (w := w1)
      as (sched & w' & Hsched & Hret); [lia | done | done |].
    exists (a :: sched), w'. cbn. by rewrite Hstep.
Qed.

(** *** What holds when the caller has returned *)

Lemma returned_cursor w : inv w -> caller_at w = Returned -> 1 <= hc -> nextRow w = height.
Proof.
  intros Hinv Hret Hone. pose proof (inv_caller _ _ _ _ _ Hinv) as Hmain.
  pose proof (inv_cursor _ _ _ _ _ Hinv).
  rewrite Hret in Hmain. destruct Hmain as [Hlen Hall].
  unfold numThreads in Hlen. rewrite int_of_unsigned_id in Hlen by done.
  destruct (lookup_lt_is_Some_2 (threads w) 0%nat) as [s Hs]; [lia|].
  pose proof (Hall _ _ Hs) as ->.
  pose proof (inv_exited _ _ _ _ _ Hinv _ Hs). lia.
Qed.

Lemma returned_pixels w :
  inv w -> caller_at w = Returned -> 1 <= hc ->
  forall y x, 0 <= y < height -> 0 <= x < width -> pixel_done width (buffer w) y x.
Proof.
  intros Hinv Hret Hone y x Hy Hx.
  pose proof (returned_cursor w Hinv Hret Hone) as Hrow.
  pose proof (inv_caller _ _ _ _ _ Hinv) as Hmain.
  rewrite Hret in Hmain. destruct Hmain as [_ Hall].
  destruct (inv_rows _ _ _ _ _ Hinv y) as [(t & x' & Hl)|Hd]; [lia| |by apply Hd].
  by apply Hall in Hl.
Qed.

Lemma returned_trace w :
  inv w -> caller_at w = Returned -> 1 <= hc ->
  trace (buffer w) ≡ₚ Store <$> seqZ 0 (width * height).
Proof.
  intros Hinv Hret Hone.
  pose proof (returned_cursor w Hinv Hret Hone) as Hrow.
  apply NoDup_Permutation.
  - by eapply inv_nodup.
  - apply NoDup_fmap; [apply _ | apply NoDup_seqZ].
  - intros a. split.
    + intros Ha. destruct (inv_trace _ _ _ _ _ Hinv a Ha) as (y & j & -> & Hy & Hj & _).
      apply list_elem_of_fmap_2, elem_of_seqZ. nia.
    + intros Ha. apply list_elem_of_fmap in Ha as (idx & -> & Hidx).
      apply elem_of_seqZ in Hidx.
      destruct (cell_index_split width height idx) as (y & x & -> & Hy & Hx); [done|lia|].
      destruct (returned_pixels w Hinv Hret Hone y x Hy Hx) as (n & _ & _ & Hin). done.
Qed.
End PassProperties.

(** ** [ComputeMandelbrotRow] as a whole *)

Section Row.
Variables (width height y : Z).
Hypothesis Hwidth : 0 <= width.
Hypothesis Hint : width * height <= INT_MAX.
Hypothesis Hy : 0 <= y < height.

(** The loop from column [x0] on: it stores to the cells of columns
    [x0 .. width - 1] of row [y], once each and in order, and to no
    other. *)
Lemma row_loop_spec (k : nat) :
  forall x0 m,
    Z.of_nat (length (cells m)) = width * height ->
    0 <= x0 -> x0 + Z.of_nat k = width ->
    exists m',
      row_loop (seqZ x0 (Z.of_nat k)) m width y (scaleX width) (row_c_im y) = Some m' /\
      trace m' = trace m ++ (Store <$> seqZ (y * width + x0) (Z.of_nat k)) /\
      length (cells m') = length (cells m) /\
      (forall i, ~ (y * width + x0 <= Z.of_nat i < y * width + width) ->
                 cells m' !! i = cells m !! i) /\
      (forall x, x0 <= x < width ->
         exists n,
           escape_iterations (col_c_re (scaleX width) x) (row_c_im y) = Some n /\
           0 <= n <= MAX_ITERATIONS /\
           cells m' !! Z.to_nat (y * width + x) = Some (F32.of_int n)).
Proof.
  induction k as [|k IH]; intros x0 m Hlen Hx0 Hk.
  - exists m. cbn. rewrite app_nil_r. repeat split; try done. intros; lia.
  - rewrite (seqZ_cons x0), (seqZ_cons (y * width + x0)) by lia.
    replace (Z.pred (Z.of_nat (S k))) with (Z.of_nat k) by lia.
    cbn [row_loop].
    destruct (ComputeMandelbrotPixel_defined width height (cells m) Hwidth Hlen Hint m y x0)
      as (n & Hn & Hrange & ->); [done | done | lia |].
    destruct (IH (Z.succ x0)
                (Memory (<[Z.to_nat (y * width + x0) := F32.of_int n]> (cells m))
                        (trace m ++ [Store (y * width + x0)])))
      as (m' & Hloop & Htrace & Hlen' & Hframe & Hrow).
    { cbn. by rewrite length_insert. }
    { lia. }
    { lia. }
    cbn in Htrace, Hlen', Hframe. rewrite length_insert in Hlen'.
    exists m'. split; [done|]. split.
    { rewrite Htrace, <- app_assoc. cbn.
      by replace (y * width + Z.succ x0) with (Z.succ (y * width + x0)) by lia. }
    split; [done|]. split.
    + intros i Hi. rewrite Hframe by lia. apply list_lookup_insert_ne. lia.
    + intros x Hx. destruct (decide (x = x0)) as [->|Hne].
      * exists n. split; [done|]. split; [done|].
        rewrite Hframe by nia. apply list_lookup_insert_eq. nia.
      * apply Hrow. lia.
Qed.
End Row.

(** A worker inside a row makes exactly the stores of the rest of
    [ComputeMandelbrotRow], one move per column and one to leave. *)
Lemma worker_runs_row_loop width height hc t y (k : nat) :
  forall x0 w m',
    threads w !! t = Some (Computing y x0) ->
    x0 + Z.of_nat k = width ->
    row_loop (seqZ x0 (Z.of_nat k)) (buffer w) width y (scaleX width) (row_c_im y) = Some m' ->
    run width height hc (replicate (S k) (Worker t)) w
    = Next (World (nextRow w) m' (<[t := Claiming]> (threads w)) (caller_at w) (claims w)).
Proof.
  induction k as [|k IH]; intros x0 w m' Ht Hk Hloop.
  - cbn in Hloop. injection Hloop as <-. cbn. unfold WorkStealing_step. rewrite Ht.
    by rewrite (proj2 (Z.ltb_ge _ _)) by lia.
  - rewrite seqZ_cons in Hloop by lia.
    replace (Z.pred (Z.of_nat (S k))) with (Z.of_nat k) in Hloop by lia.
    cbn [row_loop] in Hloop.
    destruct (ComputeMandelbrotPixel (buffer w) width y x0 (scaleX width) (row_c_im y))
      as [m1|] eqn:Hpix; [|discriminate].
    change (replicate (S (S k)) (Worker t)) with (Worker t :: replicate (S k) (Worker t)).
    cbn [run step]. unfold WorkStealing_step at 1. rewrite Ht.
    rewrite (proj2 (Z.ltb_lt _ _)) by lia. rewrite Hpix.
    rewrite (IH (Z.succ x0) _ m'); cbn [threads buffer nextRow caller_at claims].
    + unfold set_thread. by rewrite list_insert_insert_eq.
    + unfold set_thread. replace (x0 + 1) with (Z.succ x0) by lia.
      apply list_lookup_insert_eq. by eapply lookup_lt_Some.
    + lia.
    + done.
Qed.

(** ** One pass of [ComputeMandelbrot] from the initial state *)

Lemma pass_invariant width height W buffer0 sched w :
  0 <= width -> 0 <= height ->
  width * height <= INT_MAX -> Z.of_nat (length buffer0) = width * height ->
  run width height W sched (initial buffer0) = Next w ->
  invariant width height W buffer0 w.
Proof.
  intros Hwidth Hheight Hint Hsize Hrun.
  eapply run_invariant; try done. by apply initial_invariant.
Qed.

Lemma pass_returned_pixel width height W buffer0 sched w y x :
  0 <= width -> 0 <= height -> 1 <= W <= INT_MAX ->
  width * height <= INT_MAX -> Z.of_nat (length buffer0) = width * height ->
  run width height W sched (initial buffer0) = Next w -> caller_at w = Returned ->
  0 <= y < height -> 0 <= x < width ->
  pixel_done width (buffer w) y x.
Proof.
  intros Hwidth Hheight HW Hint Hsize Hrun Hret Hy Hx.
  eapply (returned_pixels width height W buffer0); try done; try lia.
  by eapply pass_invariant.
Qed.

(** C1: for a grid of at least one cell and at least one worker, the
    pass returns under every schedule (no move is undefined, every
    schedule is bounded, and some schedule reaches the return), and when
    it has returned every cell of the buffer has been stored to and holds
    a count in [0, MAX_ITERATIONS], whatever the buffer held before. *)
Theorem compute_fills_buffer (width height W : Z) (buffer0 : list float) :
  1 <= width -> 1 <= height -> 1 <= W <= INT_MAX ->
  width * height <= INT_MAX -> Z.of_nat (length buffer0) = width * height ->
  (exists sched w,
     run width height W sched (initial buffer0) = Next w /\ caller_at w = Returned) /\
  (forall sched, run width height W sched (initial buffer0) <> Fault) /\
  (forall sched w,
     run width height W sched (initial buffer0) = Next w ->
     Z.of_nat (length sched) <= 3 * W + 3 + height * (width + 2)) /\
  (forall sched w,
     run width height W sched (initial buffer0) = Next w -> caller_at w = Returned ->
     Z.of_nat (length (cells (buffer w))) = width * height /\
     forall idx,
       0 <= idx < width * height ->
       exists n,
         0 <= n <= MAX_ITERATIONS /\
         cells (buffer w) !! Z.to_nat idx = Some (F32.of_int n) /\
         Store idx ∈ trace (buffer w)).
Proof.
  intros Hwidth Hheight HW Hint Hsize.
  assert (0 <= width) as Hw0 by lia. assert (0 <= height) as Hh0 by lia.
  assert (0 <= W <= INT_MAX) as HW0 by lia.
  pose proof (initial_invariant width height W buffer0 Hh0) as Hinit.
  split; [|split; [|split]].
  - by eapply completion.
  - intros sched. by eapply run_no_fault.
  - intros sched w Hrun.
    pose proof (run_potential width height W buffer0 Hw0 Hh0 Hsize Hint sched _ _ Hinit Hrun)
      as Hbound.
    pose proof (run_invariant width height W buffer0 Hw0 Hh0 Hsize Hint sched _ _ Hinit Hrun)
      as Hinv.
    assert (0 <= potential width height W w) by by eapply potential_nonneg.
    unfold potential in Hbound at 2. cbn in Hbound.
    unfold numThreads in Hbound. rewrite int_of_unsigned_id in Hbound by done. lia.
  - intros sched w Hrun Hret.
    pose proof (run_invariant width height W buffer0 Hw0 Hh0 Hsize Hint sched _ _ Hinit Hrun)
      as Hinv.
    split; [rewrite (inv_length _ _ _ _ _ Hinv); done|].
    intros idx Hidx.
    destruct (cell_index_split width height idx) as (y & x & -> & Hy & Hx); [done..|].
    destruct (returned_pixels width height W buffer0 HW0 w Hinv Hret) with (y := y) (x := x)
      as (n & Hn & Hcell & Hin); [lia | done | done |].
    exists n. split; [|done].
    destruct (escape_iterations_total (col_c_re (scaleX width) x) (row_c_im y))
      as (n' & Hn' & Hrange). congruence.
Qed.

Lemma compute_fills_buffer_witness :
  let buffer0 := [S754_nan; S754_nan; S754_nan; S754_nan] in
  let sched :=
    [Caller; Caller; Worker 0; Caller; Worker 1; Worker 1; Worker 0; Caller; Worker 0;
     Worker 0; Worker 1; Worker 0; Caller; Worker 1; Worker 1; Caller; Caller] in
  exists w,
    run 2 2 2 sched (initial buffer0) = Next w /\ caller_at w = Returned /\
    forall idx,
      0 <= idx < 2 * 2 ->
      exists n,
        0 <= n <= MAX_ITERATIONS /\
        cells (buffer w) !! Z.to_nat idx = Some (F32.of_int n) /\
        Store idx ∈ trace (buffer w).
Proof.
  intros buffer0 sched.
  destruct (compute_fills_buffer 2 2 2 buffer0) as (_ & _ & _ & Hpost);
    [lia | lia | unfold INT_MAX; lia | unfold INT_MAX; lia | reflexivity |].
  assert (exists w, run 2 2 2 sched (initial buffer0) = Next w /\ caller_at w = Returned)
    as (w & Hrun & Hret)
    by (eexists; split; [vm_compute; reflexivity | reflexivity]).
  exists w. split; [exact Hrun|]. split; [exact Hret|].
  exact (proj2 (Hpost sched w Hrun Hret)).
Defined.

(** C3: in one pass the cursor starts at 0 and never decreases; the rows
    claimed so far, in the order of the claims, are exactly
    [0, 1, ..., nextRow - 1]; and once the caller has returned the cursor
    has reached [height] and the rows claimed are exactly
    [0, 1, ..., height - 1], each by one claim of one worker. *)
Theorem row_claims_exact (width height W : Z) (buffer0 : list float) :
  0 <= width -> 0 <= height -> 1 <= W <= INT_MAX ->
  width * height <= INT_MAX -> Z.of_nat (length buffer0) = width * height ->
  nextRow (initial buffer0) = 0 /\
  (forall sched1 sched2 w1 w2,
     run width height W sched1 (initial buffer0) = Next w1 ->
     run width height W sched2 w1 = Next w2 ->
     nextRow w1 <= nextRow w2) /\
  (forall sched w,
     run width height W sched (initial buffer0) = Next w ->
     0 <= nextRow w <= height /\ (claims w).*2 = seqZ 0 (nextRow w)) /\
  (forall sched w,
     run width height W sched (initial buffer0) = Next w -> caller_at w = Returned ->
     height <= nextRow w /\
     (claims w).*2 = seqZ 0 height /\
     NoDup (claims w).*2 /\
     forall y,
       0 <= y < height ->
       exists t,
         claims w !! Z.to_nat y = Some (t, y) /\
         forall i t', claims w !! i = Some (t', y) -> i = Z.to_nat y /\ t' = t).
Proof.
  intros Hwidth Hheight HW Hint Hsize.
  split; [done|]. split; [|split].
  - intros sched1 sched2 w1 w2 _ Hrun. by eapply run_cursor_monotone.
  - intros sched w Hrun.
    pose proof (pass_invariant _ _ _ _ _ _ Hwidth Hheight Hint Hsize Hrun) as Hinv.
    split; [by eapply inv_cursor | by eapply inv_claims].
  - intros sched w Hrun Hret.
    pose proof (pass_invariant _ _ _ _ _ _ Hwidth Hheight Hint Hsize Hrun) as Hinv.
    assert (nextRow w = height) as Hrow by (eapply returned_cursor; try done; lia).
    pose proof (inv_claims _ _ _ _ _ Hinv) as Hclaims. rewrite Hrow in Hclaims.
    assert (forall i t y, claims w !! i = Some (t, y) -> y = Z.of_nat i) as Hat.
    { intros i t y Hl.
      assert ((claims w).*2 !! i = Some y) as Hl2 by by rewrite list_lookup_fmap, Hl.
      rewrite Hclaims in Hl2. apply lookup_seqZ in Hl2. lia. }
    split; [lia|]. split; [done|]. split; [rewrite Hclaims; apply NoDup_seqZ|].
    intros y Hy.
    destruct (lookup_lt_is_Some_2 (claims w) (Z.to_nat y)) as [[t y'] Hl].
    { rewrite <- (length_fmap snd), Hclaims, length_seqZ. lia. }
    pose proof (Hat _ _ _ Hl) as Hy'. rewrite Z2Nat.id in Hy' by lia. subst y'.
    exists t. split; [done|]. intros i t' Hl'.
    pose proof (Hat _ _ _ Hl') as Hi.
    assert (i = Z.to_nat y) as -> by lia. split; [done | congruence].
Qed.

Lemma row_claims_exact_witness :
  let buffer0 := [S754_nan; S754_nan; S754_nan; S754_nan] in
  let sched :=
    [Caller; Caller; Worker 0; Caller; Worker 1; Worker 1; Worker 0; Caller; Worker 0;
     Worker 0; Worker 1; Worker 0; Caller; Worker 1; Worker 1; Caller; Caller] in
  exists w,
    run 2 2 2 sched (initial buffer0) = Next w /\ caller_at w = Returned /\
    2 <= nextRow w /\ (claims w).*2 = seqZ 0 2 /\ claims w = [(0%nat, 0); (1%nat, 1)].
Proof.
  intros buffer0 sched.
  destruct (row_claims_exact 2 2 2 buffer0) as (_ & _ & _ & Hpost);
    [lia | lia | unfold INT_MAX; lia | unfold INT_MAX; lia | reflexivity |].
  assert (exists w, run 2 2 2 sched (initial buffer0) = Next w /\ caller_at w = Returned /\
                    claims w = [(0%nat, 0); (1%nat, 1)])
    as (w & Hrun & Hret & Hclaims)
    by (eexists; split; [vm_compute; reflexivity | split; reflexivity]).
  exists w. destruct (Hpost sched w Hrun Hret) as (Hrow & Hrows & _).
  split; [exact Hrun|]. split; [exact Hret|]. split; [exact Hrow|].
  split; [exact Hrows | exact Hclaims].
Defined.

(** C4: two passes over the same grid produce the same buffer, whatever
    the two worker counts, the two schedules and the two initial contents
    of the buffer. *)
Theorem worker_count_irrelevant (width height W1 W2 : Z) (buffer1 buffer2 : list float)
    (sched1 sched2 : list actor) (w1 w2 : world) :
  0 <= width -> 0 <= height -> width * height <= INT_MAX ->
  1 <= W1 <= INT_MAX -> 1 <= W2 <= INT_MAX ->
  Z.of_nat (length buffer1) = width * height ->
  Z.of_nat (length buffer2) = width * height ->
  run width height W1 sched1 (initial buffer1) = Next w1 -> caller_at w1 = Returned ->
  run width height W2 sched2 (initial buffer2) = Next w2 -> caller_at w2 = Returned ->
  cells (buffer w1) = cells (buffer w2).
Proof.
  intros Hwidth Hheight Hint HW1 HW2 Hsize1 Hsize2 Hrun1 Hret1 Hrun2 Hret2.
  pose proof (pass_invariant _ _ _ _ _ _ Hwidth Hheight Hint Hsize1 Hrun1) as Hinv1.
  pose proof (pass_invariant _ _ _ _ _ _ Hwidth Hheight Hint Hsize2 Hrun2) as Hinv2.
  pose proof (inv_length _ _ _ _ _ Hinv1) as Hlen1.
  pose proof (inv_length _ _ _ _ _ Hinv2) as Hlen2.
  apply list_eq. intros i.
  destruct (decide (Z.of_nat i < width * height)) as [Hi|Hi].
  - destruct (cell_index_split width height (Z.of_nat i)) as (y & x & Heq & Hy & Hx);
      [done | lia |].
    destruct (pass_returned_pixel width height W1 buffer1 sched1 w1 y x)
      as (n1 & Hn1 & Hcell1 & _); try done.
    destruct (pass_returned_pixel width height W2 buffer2 sched2 w2 y x)
      as (n2 & Hn2 & Hcell2 & _); try done.
    rewrite <- Heq, Nat2Z.id in Hcell1, Hcell2. congruence.
  - rewrite !(proj2 (lookup_ge_None _ _)); [done | lia | lia].
Qed.

Lemma worker_count_irrelevant_witness :
  let sched1 :=
    [Caller; Caller; Caller; Worker 0; Worker 0; Worker 0; Worker 0; Worker 0; Worker 0;
     Worker 0; Worker 0; Worker 0; Caller; Caller] in
  let sched2 :=
    [Caller; Caller; Worker 0; Caller; Worker 1; Worker 1; Worker 0; Caller; Worker 0;
     Worker 0; Worker 1; Worker 0; Caller; Worker 1; Worker 1; Caller; Caller] in
  exists w1 w2,
    run 2 2 1 sched1 (initial [S754_nan; S754_nan; S754_nan; S754_nan]) = Next w1 /\
    run 2 2 2 sched2 (initial (replicate 4 (S754_zero true))) = Next w2 /\
    cells (buffer w1) = cells (buffer w2).
Proof.
  intros sched1 sched2.
  assert (exists w1, run 2 2 1 sched1 (initial [S754_nan; S754_nan; S754_nan; S754_nan])
                     = Next w1 /\ caller_at w1 = Returned)
    as (w1 & Hrun1 & Hret1)
    by (eexists; split; [vm_compute; reflexivity | reflexivity]).
  assert (exists w2, run 2 2 2 sched2 (initial (replicate 4 (S754_zero true)))
                     = Next w2 /\ caller_at w2 = Returned)
    as (w2 & Hrun2 & Hret2)
    by (eexists; split; [vm_compute; reflexivity | reflexivity]).
  exists w1, w2. split; [exact Hrun1|]. split; [exact Hrun2|].
  apply (worker_count_irrelevant 2 2 1 2 [S754_nan; S754_nan; S754_nan; S754_nan]
           (replicate 4 (S754_zero true)) sched1 sched2 w1 w2);
    first [exact Hrun1 | exact Hrun2 | exact Hret1 | exact Hret2
          | reflexivity | unfold INT_MAX; lia].
Defined.

(** A worker that has entered row [y] carries out [ComputeMandelbrotRow]:
    [width] moves for the columns and one to leave the row. *)
Lemma worker_runs_ComputeMandelbrotRow width height hc t y w m' :
  0 <= width ->
  threads w !! t = Some (Computing y 0) ->
  ComputeMandelbrotRow (buffer w) width y = Some m' ->
  run width height hc (replicate (S (Z.to_nat width)) (Worker t)) w
  = Next (World (nextRow w) m' (<[t := Claiming]> (threads w)) (caller_at w) (claims w)).
Proof.
  intros Hwidth Ht Hrow. apply (worker_runs_row_loop _ _ _ _ y _ 0); [done | lia |].
  unfold ComputeMandelbrotRow in Hrow. by rewrite Z2Nat.id.
Qed.

(** C5: computing row [y] of the grid stores to the cells
    [y * width .. (y + 1) * width - 1], once each in this order, makes no
    other access to the buffer (in particular no load), leaves every other
    cell as it was, and leaves in each cell of the row the count of its
    point, which does not depend on what the buffer held. *)
Theorem ComputeMandelbrotRow_frame (width height y : Z) (m : memory) :
  0 <= width -> width * height <= INT_MAX -> 0 <= y < height ->
  Z.of_nat (length (cells m)) = width * height ->
  exists m',
    ComputeMandelbrotRow m width y = Some m' /\
    trace m' = trace m ++ (Store <$> seqZ (y * width) width) /\
    (forall idx, Load idx ∈ trace m' -> Load idx ∈ trace m) /\
    length (cells m') = length (cells m) /\
    (forall i, ~ (y * width <= Z.of_nat i < (y + 1) * width) ->
               cells m' !! i = cells m !! i) /\
    (forall x, 0 <= x < width ->
       exists n,
         escape_iterations (col_c_re (scaleX width) x) (row_c_im y) = Some n /\
         0 <= n <= MAX_ITERATIONS /\
         cells m' !! Z.to_nat (y * width + x) = Some (F32.of_int n)).
Proof.
  intros Hwidth Hint Hy Hlen.
  destruct (row_loop_spec width height y Hwidth Hint Hy (Z.to_nat width) 0 m)
    as (m' & Hloop & Htrace & Hlen' & Hframe & Hrow); [done | lia | lia |].
  rewrite Z2Nat.id, Z.add_0_r in * by done.
  exists m'. split; [done|]. split; [done|]. split.
  { intros idx Hin. rewrite Htrace in Hin. apply elem_of_app in Hin as [Hin|Hin]; [done|].
    apply list_elem_of_fmap in Hin as (? & ? & _). discriminate. }
  split; [done|]. split; [|done].
  intros i Hi. apply Hframe. lia.
Qed.

Lemma ComputeMandelbrotRow_frame_witness :
  let m := Memory [S754_nan; S754_infinity false; S754_nan; S754_nan] [] in
  exists m',
    ComputeMandelbrotRow m 2 1 = Some m' /\
    trace m' = [Store 2; Store 3] /\
    cells m' !! 0%nat = Some S754_nan /\ cells m' !! 1%nat = Some (S754_infinity false).
Proof.
  intros m.
  destruct (ComputeMandelbrotRow_frame 2 2 1 m)
    as (m' & Hrow & Htrace & _ & _ & Hframe & _);
    [lia | unfold INT_MAX; lia | lia | reflexivity |].
  exists m'. split; [exact Hrow|]. split; [exact Htrace|].
  split; (rewrite Hframe; [reflexivity | lia]).
Defined.

(** ** The number of workers *)

(** C6 as stated fails: with a reported concurrency of zero the pass
    returns after three moves of the caller, without having spawned a
    worker and without a store to the buffer, so "at least one worker is
    always spawned" does not hold. *)
Lemma zero_concurrency_spawns_no_worker :
  exists w,
    run 1 1 0 [Caller; Caller; Caller] (initial [S754_nan]) = Next w /\
    caller_at w = Returned /\
    length (threads w) = 0%nat /\
    Z.of_nat (length (threads w)) <> Z.max 1 0 /\
    buffer w = Memory [S754_nan] [].
Proof.
  eexists. split; [vm_compute; reflexivity|].
  split; [reflexivity|]. split; [reflexivity|]. split; [discriminate | reflexivity].
Qed.

(** C6, amended: the pass never has more workers than the reported
    hardware concurrency, and when the caller returns it has spawned
    exactly that many; no minimum is applied. *)
Theorem spawns_hardware_concurrency_workers
    (width height hc : Z) (buffer0 : list float) (sched : list actor) (w : world) :
  0 <= hc <= INT_MAX ->
  run width height hc sched (initial buffer0) = Next w ->
  0 <= Z.of_nat (length (threads w)) <= hc /\
  (caller_at w = Returned -> Z.of_nat (length (threads w)) = hc).
Proof.
  intros Hhc Hrun.
  assert (caller_ok hc (caller_at w) (threads w)) as Hok.
  { eapply run_caller_ok; [|done]. done. }
  unfold caller_ok, numThreads in Hok. rewrite int_of_unsigned_id in Hok by done.
  destruct (caller_at w) as [|i|k|].
  - rewrite Hok. cbn. split; [lia | done].
  - destruct Hok as [Hlen Hi]. split; [lia | done].
  - destruct Hok as (Hlen & _). split; [lia | done].
  - destruct Hok as [Hlen _]. split; [lia | done].
Qed.

Lemma spawns_hardware_concurrency_workers_witness :
  let sched :=
    [Caller; Caller; Worker 0; Caller; Worker 1; Worker 1; Worker 0; Caller; Worker 0;
     Worker 0; Worker 1; Worker 0; Caller; Worker 1; Worker 1; Caller; Caller] in
  exists w,
    run 2 2 2 sched (initial (replicate 4 S754_nan)) = Next w /\
    caller_at w = Returned /\ Z.of_nat (length (threads w)) = 2.
Proof.
  intros sched.
  assert (exists w, run 2 2 2 sched (initial (replicate 4 S754_nan)) = Next w /\
                    caller_at w = Returned)
    as (w & Hrun & Hret)
    by (eexists; split; [vm_compute; reflexivity | reflexivity]).
  exists w. split; [exact Hrun|]. split; [exact Hret|].
  refine (proj2 (spawns_hardware_concurrency_workers 2 2 2 _ sched w _ Hrun) Hret).
  unfold INT_MAX; lia.
Defined.

(** ** The imaginary coordinate of a row *)

(** C10: the count stored in cell [(x, y)] is that of the point whose
    imaginary part is computed from [y] and the global [screenHeight]
    (800) alone, so two passes given different heights store the same
    value in every cell they share; the rows are spread over
    [MIN_IM, MAX_IM) only for a height of 800: row 400 is mapped to 0 and
    row 800 to [MAX_IM], whatever the height passed. *)
Theorem row_coordinate_ignores_height
    (width height1 height2 W1 W2 : Z) (buffer1 buffer2 : list float)
    (sched1 sched2 : list actor) (w1 w2 : world) (x y : Z) :
  0 <= width -> 0 <= height1 -> 0 <= height2 ->
  width * height1 <= INT_MAX -> width * height2 <= INT_MAX ->
  1 <= W1 <= INT_MAX -> 1 <= W2 <= INT_MAX ->
  Z.of_nat (length buffer1) = width * height1 ->
  Z.of_nat (length buffer2) = width * height2 ->
  run width height1 W1 sched1 (initial buffer1) = Next w1 -> caller_at w1 = Returned ->
  run width height2 W2 sched2 (initial buffer2) = Next w2 -> caller_at w2 = Returned ->
  0 <= x < width -> 0 <= y < height1 -> y < height2 ->
  (exists n,
     escape_iterations (col_c_re (scaleX width) x) (row_c_im y) = Some n /\
     cells (buffer w1) !! Z.to_nat (y * width + x) = Some (F32.of_int n) /\
     cells (buffer w2) !! Z.to_nat (y * width + x) = Some (F32.of_int n)) /\
  row_c_im y
  = F32.add MIN_IM
      (F32.div (F32.mul (F32.of_int y) (F32.sub MAX_IM MIN_IM)) (F32.of_int 800)) /\
  row_c_im 0 = MIN_IM /\ row_c_im 400 = F32.of_int 0 /\ row_c_im 800 = MAX_IM.
Proof.
  intros Hwidth Hh1 Hh2 Hint1 Hint2 HW1 HW2 Hsize1 Hsize2 Hrun1 Hret1 Hrun2 Hret2 Hx Hy1 Hy2.
  split; [|split; [reflexivity | repeat split; vm_compute; reflexivity]].
  destruct (pass_returned_pixel width height1 W1 buffer1 sched1 w1 y x)
    as (n1 & Hn1 & Hcell1 & _); try done.
  destruct (pass_returned_pixel width height2 W2 buffer2 sched2 w2 y x)
    as (n2 & Hn2 & Hcell2 & _); try done; [lia|].
  exists n1. split; [done|]. split; [done|]. congruence.
Qed.

Lemma row_coordinate_ignores_height_witness :
  let sched1 :=
    [Caller; Caller; Worker 0; Caller; Worker 1; Worker 1; Worker 0; Caller; Worker 0;
     Worker 0; Worker 1; Worker 0; Caller; Worker 1; Worker 1; Caller; Caller] in
  let sched2 :=
    [Caller; Caller; Caller; Worker 0; Worker 0; Worker 0; Worker 0; Worker 0;
     Caller; Caller] in
  exists w1 w2,
    run 2 2 2 sched1 (initial (replicate 4 S754_nan)) = Next w1 /\
    run 2 1 1 sched2 (initial (replicate 2 S754_nan)) = Next w2 /\
    exists n,
      escape_iterations (col_c_re (scaleX 2) 1) (row_c_im 0) = Some n /\
      cells (buffer w1) !! 1%nat = Some (F32.of_int n) /\
      cells (buffer w2) !! 1%nat = Some (F32.of_int n).
Proof.
  intros sched1 sched2.
  assert (exists w1, run 2 2 2 sched1 (initial (replicate 4 S754_nan)) = Next w1 /\
                     caller_at w1 = Returned)
    as (w1 & Hrun1 & Hret1)
    by (eexists; split; [vm_compute; reflexivity | reflexivity]).
  assert (exists w2, run 2 1 1 sched2 (initial (replicate 2 S754_nan)) = Next w2 /\
                     caller_at w2 = Returned)
    as (w2 & Hrun2 & Hret2)
    by (eexists; split; [vm_compute; reflexivity | reflexivity]).
  exists w1, w2. split; [exact Hrun1|]. split; [exact Hrun2|].
  refine (proj1 (row_coordinate_ignores_height 2 2 1 2 1 (replicate 4 S754_nan)
                   (replicate 2 S754_nan) sched1 sched2 w1 w2 1 0
                   _ _ _ _ _ _ _ _ _ Hrun1 Hret1 Hrun2 Hret2 _ _ _));
    first [reflexivity | unfold INT_MAX; lia].
Defined.

(** ** [GetColorFromIterations] *)

(** Rounding a non-negative mantissa never yields a NaN. *)
Lemma shr_1_nonneg mrs : 0 <= shr_m mrs -> 0 <= shr_m (shr_1 mrs).
Proof. destruct mrs as [[|p|p] r s]; [|destruct p|]; cbn; lia. Qed.

Lemma iter_pos_shr_1_nonneg p :
  forall mrs, 0 <= shr_m mrs -> 0 <= shr_m (SpecFloat.iter_pos shr_1 p mrs).
Proof. induction p; intros mrs Hm; cbn; auto using shr_1_nonneg. Qed.

Lemma shr_fexp_nonneg prec emax m e l :
  0 <= m -> 0 <= shr_m (shr_fexp prec emax m e l).1.
Proof.
  intros Hm. unfold shr_fexp, shr.
  assert (0 <= shr_m (shr_record_of_loc m l)) by by destruct l as [|[]].
  destruct (fexp prec emax (Zdigits2 m + e) - e); cbn; [done | | done].
  by apply iter_pos_shr_1_nonneg.
Qed.

Lemma round_nearest_even_nonneg m l : 0 <= m -> 0 <= round_nearest_even m l.
Proof. intros Hm. destruct l as [|[]]; cbn; try lia. destruct (Z.even m); lia. Qed.

Lemma binary_round_aux_not_nan prec emax s m e l :
  0 <= m -> binary_round_aux prec emax s m e l <> S754_nan.
Proof.
  intros Hm. unfold binary_round_aux.
  pose proof (shr_fexp_nonneg prec emax m e l Hm) as H1.
  destruct (shr_fexp prec emax m e l) as [mrs' e']. cbn [fst] in H1.
  pose proof (shr_fexp_nonneg prec emax _ e' loc_Exact
                (round_nearest_even_nonneg _ (loc_of_shr_record mrs') H1)) as H2.
  destruct (shr_fexp prec emax _ e' loc_Exact) as [mrs'' e'']. cbn [fst] in H2.
  destruct (shr_m mrs'') as [|p|p]; [done | | lia].
  by destruct (e'' <=? emax - prec).
Qed.

Lemma of_int_not_nan n : F32.of_int n <> S754_nan.
Proof.
  unfold F32.of_int, binary_normalize, binary_round. destruct n as [|p|p]; [done | |].
  - destruct (shl_align _ _ _) as [mz ez]. by apply binary_round_aux_not_nan.
  - destruct (shl_align _ _ _) as [mz ez]. by apply binary_round_aux_not_nan.
Qed.

Lemma SFcompare_refl x : x <> S754_nan -> SFcompare x x = Some Eq.
Proof.
  destruct x as [s|s| |s m e]; cbn; try done.
  - by destruct s.
  - intros _. rewrite Z.compare_refl, Pos.compare_cont_refl. by destruct s.
Qed.

(** C9 as stated fails: two counts strictly below the bound are drawn
    black, the first and the last, so "black exactly when the count
    equals [maxIterations]" does not hold. *)
Lemma black_below_the_bound :
  (0 <= 0 <= MAX_ITERATIONS /\ 0 <> MAX_ITERATIONS /\
   GetColorFromIterations (F32.of_int 0) MAX_ITERATIONS = Some BLACK) /\
  (0 <= 99999 <= MAX_ITERATIONS /\ 99999 <> MAX_ITERATIONS /\
   GetColorFromIterations (F32.of_int 99999) MAX_ITERATIONS = Some BLACK).
Proof. repeat split; try (unfold MAX_ITERATIONS; lia); vm_compute; reflexivity. Qed.

(** A count equal to [maxIterations] is drawn black, for every
    [maxIterations]. *)
Theorem GetColorFromIterations_at_bound (maxIterations : Z) :
  GetColorFromIterations (F32.of_int maxIterations) maxIterations = Some BLACK.
Proof.
  unfold GetColorFromIterations, F32.eqb, SFeqb.
  by rewrite SFcompare_refl by apply of_int_not_nan.
Qed.

(** * Further properties of the pass *)

(** ** The join barrier *)

(** When the caller has returned every worker it spawned has exited, and
    no actor can move any more: the caller returns only after the last
    [join], and nothing runs on after it. *)
Theorem returned_is_final
    (width height hc : Z) (buffer0 : list float) (sched : list actor) (w : world) :
  run width height hc sched (initial buffer0) = Next w ->
  caller_at w = Returned ->
  Z.of_nat (length (threads w)) = numThreads hc /\
  (forall t s, threads w !! t = Some s -> s = Exited) /\
  (forall a, step width height hc a w = Blocked).
Proof.
  intros Hrun Hret.
  assert (caller_ok hc (caller_at w) (threads w)) as Hok.
  { eapply run_caller_ok; [|done]. done. }
  rewrite Hret in Hok. destruct Hok as [Hlen Hall].
  split; [done|]. split; [done|]. intros [|t]; cbn.
  - unfold ComputeMandelbrot_step. by rewrite Hret.
  - unfold WorkStealing_step. destruct (threads w !! t) as [s|] eqn:Ht; [|done].
    by rewrite (Hall _ _ Ht).
Qed.

Lemma returned_is_final_witness :
  let sched :=
    [Caller; Caller; Worker 0; Caller; Worker 1; Worker 1; Worker 0; Caller; Worker 0;
     Worker 0; Worker 1; Worker 0; Caller; Worker 1; Worker 1; Caller; Caller] in
  exists w,
    run 2 2 2 sched (initial (replicate 4 S754_nan)) = Next w /\
    threads w = [Exited; Exited] /\
    forall a, step 2 2 2 a w = Blocked.
Proof.
  intros sched.
  assert (exists w, run 2 2 2 sched (initial (replicate 4 S754_nan)) = Next w /\
                    caller_at w = Returned /\ threads w = [Exited; Exited])
    as (w & Hrun & Hret & Hpool)
    by (eexists; split; [vm_compute; reflexivity | split; reflexivity]).
  exists w. split; [exact Hrun|]. split; [exact Hpool|].
  exact (proj2 (proj2 (returned_is_final 2 2 2 _ sched w Hrun Hret))).
Defined.

(** ** A reported concurrency of zero *)

Lemma zero_concurrency_step width height a w w' :
  threads w = [] -> (forall i, caller_at w = Spawn i -> i = 0) ->
  step width height 0 a w = Next w' ->
  a = Caller /\
  threads w' = [] /\ (forall i, caller_at w' = Spawn i -> i = 0) /\
  nextRow w' = nextRow w /\ claims w' = claims w /\ buffer w' = buffer w.
Proof.
  intros Hpool Hspawn Hstep. destruct a as [|t]; cbn in Hstep.
  - split; [done|]. unfold ComputeMandelbrot_step in Hstep.
    destruct (caller_at w) as [|i|k|] eqn:Hpc; try discriminate.
    + change (numThreads 0 <? 0) with false in Hstep. injection Hstep as <-. cbn.
      repeat split; try done. by intros i [= <-].
    + rewrite (Hspawn i eq_refl) in Hstep. change (0 <? numThreads 0) with false in Hstep.
      injection Hstep as <-. by cbn.
    + rewrite Hpool in Hstep. cbn in Hstep. injection Hstep as <-. by cbn.
  - unfold WorkStealing_step in Hstep. by rewrite Hpool in Hstep.
Qed.

(** With zero workers the pass computes nothing: only the caller ever
    moves, no row is claimed and the buffer keeps its contents, whatever
    the grid; the caller returns by its third move. *)
Theorem zero_concurrency_computes_nothing
    (width height : Z) (buffer0 : list float) (sched : list actor) (w : world) :
  run width height 0 sched (initial buffer0) = Next w ->
  (forall a, a ∈ sched -> a = Caller) /\
  threads w = [] /\ nextRow w = 0 /\ claims w = [] /\ buffer w = Memory buffer0 [] /\
  run width height 0 [Caller; Caller; Caller] (initial buffer0)
  = Next (World 0 (Memory buffer0 []) [] Returned []).
Proof.
  intros Hrun.
  assert (forall sched w0 w1,
            threads w0 = [] -> (forall i, caller_at w0 = Spawn i -> i = 0) ->
            run width height 0 sched w0 = Next w1 ->
            (forall a, a ∈ sched -> a = Caller) /\ threads w1 = [] /\
            nextRow w1 = nextRow w0 /\ claims w1 = claims w0 /\ buffer w1 = buffer w0)
    as Hall.
  { clear. induction sched as [|a sched IH]; intros w0 w1 Hpool Hspawn Hrun; cbn in Hrun.
    - injection Hrun as <-. repeat split; try done. intros a Ha. by apply elem_of_nil in Ha.
    - destruct (step width height 0 a w0) as [| |w'] eqn:Hstep; try discriminate.
      destruct (zero_concurrency_step _ _ _ _ _ Hpool Hspawn Hstep)
        as (-> & Hpool' & Hspawn' & Hrow & Hcl & Hbuf).
      destruct (IH _ _ Hpool' Hspawn' Hrun) as (Hsched & ? & ? & ? & ?).
      repeat split; try congruence.
      intros a Ha. apply elem_of_cons in Ha as [->|Ha]; [done | by apply Hsched]. }
  destruct (Hall sched (initial buffer0) w) as (? & ? & ? & ? & ?); try done.
Qed.

Lemma zero_concurrency_computes_nothing_witness :
  exists w,
    run 3 2 0 [Caller; Caller] (initial (replicate 6 S754_nan)) = Next w /\
    caller_at w = Join 0 /\ buffer w = Memory (replicate 6 S754_nan) [].
Proof.
  assert (exists w, run 3 2 0 [Caller; Caller] (initial (replicate 6 S754_nan)) = Next w /\
                    caller_at w = Join 0)
    as (w & Hrun & Hpc) by (eexists; split; reflexivity).
  exists w. split; [exact Hrun|]. split; [exact Hpc|].
  exact (proj1 (proj2 (proj2 (proj2 (proj2
           (zero_concurrency_computes_nothing 3 2 (replicate 6 S754_nan) _ w Hrun)))))).
Defined.

(** ** Stores during a pass *)

(** At every moment of a pass, under every schedule: the accesses made to
    the buffer so far are stores inside rows already claimed, no cell has
    been stored to twice, a cell that was stored to already holds its
    final count, and a cell not yet stored to still has its initial
    value. *)
Theorem stores_never_repeat
    (width height hc : Z) (buffer0 : list float) (sched : list actor) (w : world) :
  0 <= width -> 0 <= height ->
  width * height <= INT_MAX -> Z.of_nat (length buffer0) = width * height ->
  run width height hc sched (initial buffer0) = Next w ->
  length (cells (buffer w)) = length buffer0 /\
  NoDup (trace (buffer w)) /\
  (forall a, a ∈ trace (buffer w) ->
     exists idx n,
       a = Store idx /\ 0 <= idx < nextRow w * width /\ nextRow w <= height /\
       0 <= n <= MAX_ITERATIONS /\
       cells (buffer w) !! Z.to_nat idx = Some (F32.of_int n)) /\
  (forall i, Store (Z.of_nat i) ∉ trace (buffer w) -> cells (buffer w) !! i = buffer0 !! i).
Proof.
  intros Hwidth Hheight Hint Hsize Hrun.
  pose proof (pass_invariant _ _ _ _ _ _ Hwidth Hheight Hint Hsize Hrun) as Hinv.
  pose proof (inv_cursor _ _ _ _ _ Hinv) as Hcur.
  split; [by eapply inv_length|]. split; [by eapply inv_nodup|].
  split; [|by eapply inv_untouched].
  intros a Ha.
  destruct (inv_trace _ _ _ _ _ Hinv a Ha) as (y & j & -> & Hy & Hj & Hlt).
  assert (pixel_done width (buffer w) y j) as (n & Hn & Hcell & _).
  { destruct (inv_rows _ _ _ _ _ Hinv y Hy) as [(t & x & Ht)|Hdone]; [|by apply Hdone].
    destruct (inv_computing _ _ _ _ _ Hinv _ _ _ Ht) as (_ & _ & Hprefix).
    apply Hprefix. specialize (Hlt _ _ Ht). lia. }
  exists (y * width + j), n. split; [done|]. split; [nia|]. split; [lia|].
  split; [|done].
  destruct (escape_iterations_total (col_c_re (scaleX width) j) (row_c_im y))
    as (n' & Hn' & Hrange). congruence.
Qed.

Lemma stores_never_repeat_witness :
  let sched := [Caller; Caller; Worker 0; Worker 0; Caller; Worker 1; Worker 0] in
  exists w,
    run 2 2 2 sched (initial (replicate 4 S754_nan)) = Next w /\
    trace (buffer w) = [Store 0; Store 1] /\
    cells (buffer w) !! 2%nat = Some S754_nan /\ cells (buffer w) !! 3%nat = Some S754_nan.
Proof.
  intros sched.
  assert (exists w, run 2 2 2 sched (initial (replicate 4 S754_nan)) = Next w /\
                    trace (buffer w) = [Store 0; Store 1])
    as (w & Hrun & Htrace) by (eexists; split; [vm_compute; reflexivity | reflexivity]).
  destruct (stores_never_repeat 2 2 2 (replicate 4 S754_nan) sched w)
    as (_ & _ & _ & Hkeep);
    [lia | lia | unfold INT_MAX; lia | reflexivity | exact Hrun |].
  exists w. split; [exact Hrun|]. split; [exact Htrace|].
  split; (rewrite Hkeep; [reflexivity|]); rewrite Htrace;
    intros Hin; repeat (apply elem_of_cons in Hin as [Hin|Hin]; [discriminate|]);
    by apply elem_of_nil in Hin.
Defined.

(** When the caller has returned, the accesses made to the buffer are the
    stores to the cells [0 .. width * height - 1], each exactly once, in
    some order. *)
Theorem each_cell_stored_once
    (width height W : Z) (buffer0 : list float) (sched : list actor) (w : world) :
  0 <= width -> 0 <= height -> 1 <= W <= INT_MAX ->
  width * height <= INT_MAX -> Z.of_nat (length buffer0) = width * height ->
  run width height W sched (initial buffer0) = Next w -> caller_at w = Returned ->
  trace (buffer w) ≡ₚ Store <$> seqZ 0 (width * height).
Proof.
  intros Hwidth Hheight HW Hint Hsize Hrun Hret.
  eapply (returned_trace width height W buffer0); try done; try lia.
  by eapply pass_invariant.
Qed.

Lemma each_cell_stored_once_witness :
  let sched :=
    [Caller; Caller; Worker 0; Caller; Worker 1; Worker 1; Worker 0; Caller; Worker 0;
     Worker 0; Worker 1; Worker 0; Caller; Worker 1; Worker 1; Caller; Caller] in
  exists w,
    run 2 2 2 sched (initial (replicate 4 S754_nan)) = Next w /\
    trace (buffer w) = [Store 2; Store 0; Store 1; Store 3] /\
    trace (buffer w) ≡ₚ [Store 0; Store 1; Store 2; Store 3].
Proof.
  intros sched.
  assert (exists w, run 2 2 2 sched (initial (replicate 4 S754_nan)) = Next w /\
                    caller_at w = Returned /\
                    trace (buffer w) = [Store 2; Store 0; Store 1; Store 3])
    as (w & Hrun & Hret & Htrace)
    by (eexists; split; [vm_compute; reflexivity | split; reflexivity]).
  exists w. split; [exact Hrun|]. split; [exact Htrace|].
  apply (each_cell_stored_once 2 2 2 (replicate 4 S754_nan) sched w);
    first [exact Hrun | exact Hret | reflexivity | unfold INT_MAX; lia].
Defined.

(** ** Workers inside a row *)

(** A move of the caller touches neither the cursor, the buffer nor the
    claim history, and at most adds a worker to the pool. *)
Lemma ComputeMandelbrot_step_caller_free hc w w' :
  ComputeMandelbrot_step hc w = Next w' ->
  nextRow w' = nextRow w /\ buffer w' = buffer w /\ claims w' = claims w /\
  (threads w' = threads w \/ threads w' = threads w ++ [Claiming]).
Proof.
  unfold ComputeMandelbrot_step. destruct (caller_at w) as [|i|k|]; try discriminate.
  - destruct (numThreads hc <? 0); [discriminate|]. intros [= <-]. cbn. auto.
  - destruct (i <? numThreads hc); intros [= <-]; cbn; auto.
  - destruct (threads w !! k) as [[| |]|]; try discriminate; intros [= <-]; cbn; auto.
Qed.

(** A worker inside a row is in the claim history with that row. *)
Lemma run_claimant width height hc sched :
  forall w w',
    (forall t y x, threads w !! t = Some (Computing y x) -> (t, y) ∈ claims w) ->
    run width height hc sched w = Next w' ->
    forall t y x, threads w' !! t = Some (Computing y x) -> (t, y) ∈ claims w'.
Proof.
  induction sched as [|a sched IH]; intros w w' Hw Hrun; cbn in Hrun.
  - by injection Hrun as <-.
  - destruct (step width height hc a w) as [| |w1] eqn:Hstep; try discriminate.
    eapply IH; [|done]. clear IH Hrun. intros t y x Hl.
    destruct a as [|t0]; cbn in Hstep.
    + destruct (ComputeMandelbrot_step_caller_free hc w w1 Hstep) as (_ & _ & Hcl & Hpool).
      rewrite Hcl. destruct Hpool as [Hpool|Hpool]; rewrite Hpool in Hl.
      * by eapply Hw.
      * apply lookup_snoc_Some in Hl as [[_ Hl]|[_ Hl]]; [by eapply Hw | discriminate].
    + unfold WorkStealing_step, set_thread in Hstep.
      destruct (threads w !! t0) as [[|y0 x0|]|] eqn:Ht0; try discriminate.
      * destruct (nextRow w <? height);
          [destruct (nextRow w =? -1) | change (-1 =? -1) with true in Hstep];
          injection Hstep as <-; cbn in *;
          apply list_lookup_insert_Some in Hl as [(<- & Hl & _)|(_ & Hl)];
          try discriminate; try (apply elem_of_app; left; by eapply Hw);
          try (by eapply Hw).
        injection Hl as <- <-. apply elem_of_app. right. by apply list_elem_of_singleton.
      * destruct (x0 <? width).
        -- destruct (ComputeMandelbrotPixel _ _ _ _ _ _); [|discriminate].
           injection Hstep as <-. cbn in *.
           apply list_lookup_insert_Some in Hl as [(<- & Hl & _)|(_ & Hl)];
             [|by eapply Hw].
           injection Hl as <- <-. by eapply Hw.
        -- injection Hstep as <-. cbn in *.
           apply list_lookup_insert_Some in Hl as [(<- & Hl & _)|(_ & Hl)];
             [discriminate | by eapply Hw].
Qed.

(** While a worker is inside a row, under every schedule: it is the
    worker that claimed this row and the only one inside it, and the
    cells of the row to the left of its column have been stored to while
    those from its column on have not. *)
Theorem rows_are_exclusive
    (width height hc : Z) (buffer0 : list float) (sched : list actor) (w : world)
    (t : nat) (y x : Z) :
  0 <= width -> 0 <= height ->
  width * height <= INT_MAX -> Z.of_nat (length buffer0) = width * height ->
  run width height hc sched (initial buffer0) = Next w ->
  threads w !! t = Some (Computing y x) ->
  0 <= y < nextRow w /\ nextRow w <= height /\ 0 <= x <= width /\
  (t, y) ∈ claims w /\
  (forall t' x', threads w !! t' = Some (Computing y x') -> t' = t) /\
  (forall j, 0 <= j < x -> Store (y * width + j) ∈ trace (buffer w)) /\
  (forall j, x <= j < width -> Store (y * width + j) ∉ trace (buffer w)).
Proof.
  intros Hwidth Hheight Hint Hsize Hrun Ht.
  pose proof (pass_invariant _ _ _ _ _ _ Hwidth Hheight Hint Hsize Hrun) as Hinv.
  pose proof (inv_cursor _ _ _ _ _ Hinv) as Hcur.
  destruct (inv_computing _ _ _ _ _ Hinv _ _ _ Ht) as (Hy & Hx & Hprefix).
  split; [done|]. split; [lia|]. split; [done|]. split.
  { eapply (run_claimant width height hc sched (initial buffer0)); [|done..].
    intros t0 y0 x0 Hl. discriminate. }
  split; [|split].
  - intros t' x' Ht'. by eapply (inv_owner _ _ _ _ _ Hinv).
  - intros j Hj. by destruct (Hprefix j Hj) as (n & _ & _ & Hin).
  - intros j Hj Hin.
    destruct (inv_trace _ _ _ _ _ Hinv _ Hin) as (y' & j' & Heq & Hy' & Hj' & Hlt).
    apply Store_inj, cell_index_inj in Heq as [<- <-]; [|lia|lia].
    specialize (Hlt _ _ Ht). lia.
Qed.

Lemma rows_are_exclusive_witness :
  let sched := [Caller; Caller; Worker 0; Worker 0; Caller; Worker 1] in
  exists w,
    run 2 2 2 sched (initial (replicate 4 S754_nan)) = Next w /\
    threads w = [Computing 0 1; Computing 1 0] /\
    (0%nat, 0) ∈ claims w /\
    Store (0 * 2 + 1) ∉ trace (buffer w).
Proof.
  intros sched.
  assert (exists w, run 2 2 2 sched (initial (replicate 4 S754_nan)) = Next w /\
                    threads w = [Computing 0 1; Computing 1 0])
    as (w & Hrun & Hpool) by (eexists; split; [vm_compute; reflexivity | reflexivity]).
  destruct (rows_are_exclusive 2 2 2 (replicate 4 S754_nan) sched w 0 0 1)
    as (_ & _ & _ & Hclaim & _ & _ & Hnot);
    [lia | lia | unfold INT_MAX; lia | reflexivity | exact Hrun | by rewrite Hpool |].
  exists w. split; [exact Hrun|]. split; [exact Hpool|]. split; [exact Hclaim|].
  apply Hnot. lia.
Defined.

(** ** Progress *)

(** The pass never deadlocks: in every state it can reach in which the
    caller has not returned, the caller or one of the workers can move;
    and no move it can make is undefined. *)
Theorem pass_never_deadlocks
    (width height hc : Z) (buffer0 : list float) (sched : list actor) (w : world) :
  0 <= width -> 0 <= height -> 0 <= hc <= INT_MAX ->
  width * height <= INT_MAX -> Z.of_nat (length buffer0) = width * height ->
  run width height hc sched (initial buffer0) = Next w ->
  (forall a, step width height hc a w <> Fault) /\
  (caller_at w <> Returned -> exists a w', step width height hc a w = Next w').
Proof.
  intros Hwidth Hheight Hhc Hint Hsize Hrun.
  pose proof (pass_invariant _ _ _ _ _ _ Hwidth Hheight Hint Hsize Hrun) as Hinv.
  split.
  - intros a. by eapply step_no_fault.
  - intros Hpc. by eapply progress.
Qed.

Lemma pass_never_deadlocks_witness :
  let sched := [Caller; Caller; Caller; Caller] in
  exists w,
    run 2 2 2 sched (initial (replicate 4 S754_nan)) = Next w /\
    step 2 2 2 Caller w = Blocked /\
    exists a w', step 2 2 2 a w = Next w'.
Proof.
  intros sched.
  assert (exists w, run 2 2 2 sched (initial (replicate 4 S754_nan)) = Next w /\
                    caller_at w = Join 0 /\ step 2 2 2 Caller w = Blocked)
    as (w & Hrun & Hpc & Hblocked)
    by (eexists; split; [vm_compute; reflexivity | split; reflexivity]).
  exists w. split; [exact Hrun|]. split; [exact Hblocked|].
  apply (pass_never_deadlocks 2 2 2 (replicate 4 S754_nan) sched w);
    first [exact Hrun | reflexivity | unfold INT_MAX; lia | by rewrite Hpc].
Defined.

(** ** The number of moves *)

Section Moves.
Variables (width height hc : Z) (buffer0 : list float).
Hypothesis Hwidth : 0 <= width.

Local Arguments numThreads : simpl never.
Local Arguments workers_cost : simpl never.

(** Every move uses up exactly one unit of the potential. *)
Lemma step_potential_exact a w w' :
  invariant width height hc buffer0 w -> step width height hc a w = Next w' ->
  potential width height hc w' = potential width height hc w - 1.
Proof.
  intros Hinv Hstep. pose proof (inv_caller _ _ _ _ _ Hinv) as Hmain.
  unfold potential. destruct a as [|t]; cbn in Hstep.
  - unfold ComputeMandelbrot_step in Hstep.
    destruct (caller_at w) as [|i|k|] eqn:Hpc; cbn in Hmain; try discriminate.
    + destruct (numThreads hc <? 0); [discriminate|]. injection Hstep as <-. cbn. lia.
    + destruct (Z.ltb_spec i (numThreads hc)); injection Hstep as <-; cbn.
      * rewrite workers_cost_snoc. cbn. lia.
      * lia.
    + destruct Hmain as (Hlen & Hk & Hdone).
      destruct (threads w !! k) as [[| |]|] eqn:Hth; try discriminate;
        injection Hstep as <-; cbn; [lia|].
      apply lookup_ge_None in Hth. lia.
  - unfold WorkStealing_step, set_thread in Hstep.
    destruct (threads w !! t) as [[|y x|]|] eqn:Ht; try discriminate.
    + pose proof (inv_cursor _ _ _ _ _ Hinv) as Hcur.
      destruct (Z.ltb_spec (nextRow w) height).
      * rewrite (proj2 (Z.eqb_neq _ _)) in Hstep by lia. injection Hstep as <-. cbn.
        rewrite caller_cost_insert, (workers_cost_insert _ _ _ _ _ Ht). cbn. nia.
      * change (-1 =? -1) with true in Hstep. injection Hstep as <-. cbn.
        rewrite caller_cost_insert, (workers_cost_insert _ _ _ _ _ Ht). cbn. lia.
    + destruct (Z.ltb_spec x width).
      * destruct (ComputeMandelbrotPixel _ _ _ _ _ _); [|discriminate].
        injection Hstep as <-. cbn.
        rewrite caller_cost_insert, (workers_cost_insert _ _ _ _ _ Ht). cbn. lia.
      * injection Hstep as <-. cbn.
        rewrite caller_cost_insert, (workers_cost_insert _ _ _ _ _ Ht). cbn. lia.
Qed.

Lemma workers_cost_exited pool :
  (forall t s, pool !! t = Some s -> s = Exited) -> workers_cost width pool = 0.
Proof.
  induction pool as [|s pool IH]; intros Hall; [done|].
  change (workers_cost width (s :: pool)) with (worker_cost width s + workers_cost width pool).
  rewrite (Hall 0%nat s eq_refl), IH; [done|].
  intros t s' Hl. by apply (Hall (S t)).
Qed.
End Moves.

Lemma run_potential_exact width height hc buffer0 sched :
  0 <= width -> 0 <= height ->
  width * height <= INT_MAX -> Z.of_nat (length buffer0) = width * height ->
  forall w w',
    invariant width height hc buffer0 w ->
    run width height hc sched w = Next w' ->
    Z.of_nat (length sched) + potential width height hc w' = potential width height hc w.
Proof.
  intros Hwidth Hheight Hint Hsize.
  induction sched as [|a sched IH]; intros w w' Hinv Hrun; cbn in Hrun.
  - injection Hrun as <-. cbn. lia.
  - destruct (step width height hc a w) as [| |w1] eqn:Hstep; try discriminate.
    pose proof (step_potential_exact width height hc buffer0 Hwidth _ _ _ Hinv Hstep).
    apply IH in Hrun; [|by eapply step_invariant]. cbn [length]. lia.
Qed.

(** The work of a pass does not depend on the schedule: every run that
    ends with the caller's return consists of exactly
    [3 * W + 3 + height * (width + 2)] moves. *)
Theorem pass_length_is_fixed
    (width height W : Z) (buffer0 : list float) (sched : list actor) (w : world) :
  0 <= width -> 0 <= height -> 1 <= W <= INT_MAX ->
  width * height <= INT_MAX -> Z.of_nat (length buffer0) = width * height ->
  run width height W sched (initial buffer0) = Next w -> caller_at w = Returned ->
  Z.of_nat (length sched) = 3 * W + 3 + height * (width + 2).
Proof.
  intros Hwidth Hheight HW Hint Hsize Hrun Hret.
  pose proof (initial_invariant width height W buffer0 Hheight) as Hinit.
  pose proof (run_potential_exact _ _ _ _ sched Hwidth Hheight Hint Hsize _ _ Hinit Hrun)
    as Hsum.
  pose proof (pass_invariant _ _ _ _ _ _ Hwidth Hheight Hint Hsize Hrun) as Hinv.
  assert (nextRow w = height) as Hrow by (eapply returned_cursor; try done; lia).
  pose proof (inv_caller _ _ _ _ _ Hinv) as Hok. rewrite Hret in Hok.
  destruct Hok as [_ Hall].
  unfold potential in Hsum. rewrite Hret, Hrow, (workers_cost_exited _ _ Hall) in Hsum.
  cbn in Hsum. unfold numThreads in Hsum. rewrite int_of_unsigned_id in Hsum by lia. lia.
Qed.

Lemma pass_length_is_fixed_witness :
  let sched :=
    [Caller; Caller; Worker 0; Caller; Worker 1; Worker 1; Worker 0; Caller; Worker 0;
     Worker 0; Worker 1; Worker 0; Caller; Worker 1; Worker 1; Caller; Caller] in
  exists w,
    run 2 2 2 sched (initial (replicate 4 S754_nan)) = Next w /\
    Z.of_nat (length sched) = 3 * 2 + 3 + 2 * (2 + 2).
Proof.
  intros sched.
  assert (exists w, run 2 2 2 sched (initial (replicate 4 S754_nan)) = Next w /\
                    caller_at w = Returned)
    as (w & Hrun & Hret) by (eexists; split; [vm_compute; reflexivity | reflexivity]).
  exists w. split; [exact Hrun|].
  apply (pass_length_is_fixed 2 2 2 (replicate 4 S754_nan) sched w);
    first [exact Hrun | exact Hret | reflexivity | unfold INT_MAX; lia].
Defined.

(** ** Degenerate grids *)

(** With no column or no row to compute ([width <= 0] or [height <= 0])
    the pass makes no access to the buffer, whatever its size and
    contents, the number of workers and the schedule; with no row, no row
    is claimed either. *)
Theorem empty_grid_stores_nothing
    (width height hc : Z) (buffer0 : list float) (sched : list actor) (w : world) :
  width <= 0 \/ height <= 0 ->
  run width height hc sched (initial buffer0) = Next w ->
  buffer w = Memory buffer0 [] /\
  (height <= 0 -> nextRow w = 0 /\ claims w = []).
Proof.
  intros Hempty Hrun.
  assert (forall sched w0 w1,
            0 <= nextRow w0 ->
            (forall t y x, threads w0 !! t = Some (Computing y x) -> width <= x) ->
            run width height hc sched w0 = Next w1 ->
            buffer w1 = buffer w0 /\
            (height <= 0 -> nextRow w1 = nextRow w0 /\ claims w1 = claims w0)) as Hall.
  { clear sched w Hrun.
    induction sched as [|a sched IH]; intros w0 w1 Hrow Hcols Hrun; cbn in Hrun.
    - by injection Hrun as <-.
    - destruct (step width height hc a w0) as [| |w'] eqn:Hstep; try discriminate.
      assert (buffer w' = buffer w0 /\ 0 <= nextRow w' /\
              (height <= 0 -> nextRow w' = nextRow w0 /\ claims w' = claims w0) /\
              forall t y x, threads w' !! t = Some (Computing y x) -> width <= x)
        as (Hbuf & Hrow' & Hnone & Hcols').
      { destruct a as [|t0]; cbn in Hstep.
        - destruct (ComputeMandelbrot_step_caller_free hc w0 w' Hstep)
            as (Hr & Hb & Hc & Hpool).
          rewrite Hr, Hb, Hc. repeat split; try done. intros t y x Hl.
          destruct Hpool as [Hpool|Hpool]; rewrite Hpool in Hl; [by eapply Hcols|].
          apply lookup_snoc_Some in Hl as [[_ Hl]|[_ Hl]]; [by eapply Hcols | discriminate].
        - unfold WorkStealing_step, set_thread in Hstep.
          destruct (threads w0 !! t0) as [[|y0 x0|]|] eqn:Ht0; try discriminate.
          + destruct (Z.ltb_spec (nextRow w0) height).
            * rewrite (proj2 (Z.eqb_neq _ _)) in Hstep by lia. injection Hstep as <-. cbn.
              repeat split; try lia. intros t y x Hl.
              apply list_lookup_insert_Some in Hl as [(_ & Hl & _)|(_ & Hl)];
                [|by eapply Hcols].
              injection Hl as <- <-. lia.
            * change (-1 =? -1) with true in Hstep. injection Hstep as <-. cbn.
              repeat split; try done. intros t y x Hl.
              apply list_lookup_insert_Some in Hl as [(_ & Hl & _)|(_ & Hl)];
                [discriminate | by eapply Hcols].
          + pose proof (Hcols _ _ _ Ht0).
            rewrite (proj2 (Z.ltb_ge _ _)) in Hstep by done. injection Hstep as <-. cbn.
            repeat split; try done. intros t y x Hl.
            apply list_lookup_insert_Some in Hl as [(_ & Hl & _)|(_ & Hl)];
              [discriminate | by eapply Hcols]. }
      destruct (IH _ _ Hrow' Hcols' Hrun) as [Hbuf1 Hnone1].
      split; [congruence|]. intros Hh.
      destruct (Hnone Hh) as [? ?], (Hnone1 Hh) as [? ?]. split; congruence. }
  destruct (Hall sched (initial buffer0) w) as [Hbuf Hnone];
    [cbn; lia | intros t y x Hl; discriminate | done |].
  split; [done|]. intros Hh. by apply Hnone.
Qed.

Lemma empty_grid_stores_nothing_witness :
  let sched := [Caller; Caller; Worker 0; Worker 0; Worker 0; Caller; Caller; Caller] in
  exists w,
    run 0 1 1 sched (initial [S754_nan]) = Next w /\
    caller_at w = Returned /\ claims w = [(0%nat, 0)] /\ buffer w = Memory [S754_nan] [].
Proof.
  intros sched.
  assert (exists w, run 0 1 1 sched (initial [S754_nan]) = Next w /\
                    caller_at w = Returned /\ claims w = [(0%nat, 0)])
    as (w & Hrun & Hret & Hclaims)
    by (eexists; split; [vm_compute; reflexivity | split; reflexivity]).
  exists w. split; [exact Hrun|]. split; [exact Hret|]. split; [exact Hclaims|].
  apply (empty_grid_stores_nothing 0 1 1 [S754_nan] sched w); [left; lia | exact Hrun].
Defined.

(** * Further properties of the kernel *)

Lemma first_escape_never c :
  (forall j, orbit_escaped c (S j) = false) -> forall n k, first_escape c k n = (k + n)%nat.
Proof.
  intros Hnever. induction n as [|n IH]; intros k; cbn [first_escape]; [lia|].
  rewrite Hnever, IH. lia.
Qed.

Lemma escape_iterations_never c_re c_im :
  (forall j, orbit_escaped (c_re, c_im) (S j) = false) ->
  escape_iterations c_re c_im = Some MAX_ITERATIONS.
Proof.
  intros Hnever. rewrite escape_iterations_reference. unfold reference_evaluate.
  rewrite (first_escape_never _ Hnever). apply f_equal. unfold MAX_ITERATIONS. lia.
Qed.

Lemma orbit_period c k p :
  orbit c (k + p) = orbit c k -> forall n, orbit c (k + n + p) = orbit c (k + n).
Proof.
  intros Hloop. induction n as [|n IH].
  - by rewrite Nat.add_0_r.
  - replace (k + S n + p)%nat with (S (k + n + p)) by lia.
    replace (k + S n)%nat with (S (k + n)) by lia.
    by rewrite !orbit_step, IH.
Qed.

(** An orbit that comes back to an earlier value without having escaped
    never escapes: the evaluator returns [MAX_ITERATIONS].  This is how
    the points whose orbit is periodic in [float] arithmetic are counted
    as interior. *)
Theorem periodic_orbit_runs_to_the_bound (c_re c_im : float) (k p : nat) :
  (1 <= p)%nat ->
  orbit (c_re, c_im) (k + p) = orbit (c_re, c_im) k ->
  (forall j, (1 <= j <= k + p)%nat -> orbit_escaped (c_re, c_im) j = false) ->
  escape_iterations c_re c_im = Some MAX_ITERATIONS.
Proof.
  intros Hp Hloop Hfirst. apply escape_iterations_never.
  assert (forall j, (1 <= j)%nat -> orbit_escaped (c_re, c_im) j = false) as Hall.
  { induction j as [j IH] using lt_wf_ind. intros Hj.
    destruct (le_lt_dec j (k + p)) as [Hle|Hgt]; [by apply Hfirst|].
    unfold orbit_escaped.
    replace j with (k + (j - p - k) + p)%nat by lia.
    rewrite (orbit_period _ _ _ Hloop). apply (IH (k + (j - p - k))%nat); lia. }
  intros j. apply Hall. lia.
Qed.

Lemma periodic_orbit_runs_to_the_bound_witness :
  orbit (F32.of_int (-1), F32.of_int 0) 2 = orbit (F32.of_int (-1), F32.of_int 0) 0 /\
  escape_iterations (F32.of_int (-1)) (F32.of_int 0) = Some MAX_ITERATIONS.
Proof.
  assert (orbit (F32.of_int (-1), F32.of_int 0) (0 + 2)
          = orbit (F32.of_int (-1), F32.of_int 0) 0) as Hloop by reflexivity.
  split; [exact Hloop|].
  apply (periodic_orbit_runs_to_the_bound _ _ 0 2); [lia | exact Hloop |].
  intros j Hj. destruct j as [|[|[|j]]]; [lia | reflexivity | reflexivity | lia].
Defined.

Lemma SFadd_nan_r prec emax x : SFadd prec emax x S754_nan = S754_nan.
Proof. by destruct x. Qed.

Lemma SFmul_nan_r prec emax x : SFmul prec emax x S754_nan = S754_nan.
Proof. by destruct x. Qed.

Lemma escaped_nan_l z_im : escaped S754_nan z_im = false.
Proof. done. Qed.

Lemma escaped_nan_r z_re : escaped z_re S754_nan = false.
Proof. unfold escaped, F32.add, F32.mul. cbn [SFmul]. by rewrite SFadd_nan_r. Qed.

(** A point with a NaN coordinate is never seen to escape (no comparison
    with a NaN holds): the evaluator returns [MAX_ITERATIONS] for it. *)
Theorem nan_coordinate_runs_to_the_bound (c_re c_im : float) :
  c_re = S754_nan \/ c_im = S754_nan ->
  escape_iterations c_re c_im = Some MAX_ITERATIONS.
Proof.
  intros Hnan. apply escape_iterations_never. intros j.
  unfold orbit_escaped. rewrite orbit_step. cbn [fst snd].
  unfold orbit_update. cbn [fst snd]. destruct Hnan as [-> | ->].
  - unfold F32.add at 1. rewrite SFadd_nan_r. apply escaped_nan_l.
  - replace (F32.of_double _) with S754_nan; [apply escaped_nan_r|].
    unfold F64.add. cbn [F64.of_float]. by rewrite SFadd_nan_r.
Qed.

Lemma nan_coordinate_runs_to_the_bound_witness :
  escape_iterations S754_nan (F32.of_int 2) = Some MAX_ITERATIONS /\
  escape_iterations (F32.of_int 2) (F32.of_int 2) = Some 0.
Proof.
  split.
  - apply nan_coordinate_runs_to_the_bound. left. reflexivity.
  - vm_compute. reflexivity.
Defined.

(** * Further properties of [ComputeMandelbrotRow] *)

Lemma checked_int_Some n k : checked_int n = Some k -> k = n.
Proof. unfold checked_int. destruct (int_ok n); congruence. Qed.

(** A defined pixel body has stored inside the array, at [y * width + x]. *)
Lemma ComputeMandelbrotPixel_Some m width y x sx c_im m' :
  ComputeMandelbrotPixel m width y x sx c_im = Some m' ->
  0 <= y * width + x < Z.of_nat (length (cells m)) /\
  length (cells m') = length (cells m).
Proof.
  unfold ComputeMandelbrotPixel, cell_index.
  destruct (escape_iterations _ _) as [n|]; [|discriminate].
  destruct (checked_int (y * width)) as [yw|] eqn:Hyw; [|discriminate].
  destruct (checked_int (yw + x)) as [idx|] eqn:Hidx; [|discriminate].
  apply checked_int_Some in Hyw as ->. apply checked_int_Some in Hidx as ->.
  intros Hstore. apply store_inv in Hstore as [Hin ->]. cbn.
  by rewrite length_insert.
Qed.

Lemma row_loop_out_of_bounds width y sx c_im xs :
  forall m x,
    x ∈ xs -> ~ (0 <= y * width + x < Z.of_nat (length (cells m))) ->
    row_loop xs m width y sx c_im = None.
Proof.
  induction xs as [|x0 xs IH]; intros m x Hx Hout; [by apply elem_of_nil in Hx|].
  cbn [row_loop].
  destruct (ComputeMandelbrotPixel m width y x0 sx c_im) as [m'|] eqn:Hpix; [|done].
  apply ComputeMandelbrotPixel_Some in Hpix as [Hin Hlen].
  apply elem_of_cons in Hx as [->|Hx]; [done|].
  apply (IH m' x Hx). by rewrite Hlen.
Qed.

(** [ComputeMandelbrotRow] checks no bound: if a cell of row [y] lies
    outside the array, the row is an out-of-bounds store, that is,
    undefined. *)
Theorem ComputeMandelbrotRow_out_of_bounds (m : memory) (width y x : Z) :
  0 <= x < width ->
  ~ (0 <= y * width + x < Z.of_nat (length (cells m))) ->
  ComputeMandelbrotRow m width y = None.
Proof.
  intros Hx Hout. unfold ComputeMandelbrotRow.
  apply (row_loop_out_of_bounds _ _ _ _ _ _ x); [|done].
  apply elem_of_seqZ. lia.
Qed.

Lemma ComputeMandelbrotRow_out_of_bounds_witness :
  ComputeMandelbrotRow (Memory (replicate 3 S754_nan) []) 2 1 = None /\
  ComputeMandelbrotRow (Memory (replicate 3 S754_nan) []) 2 (-1) = None.
Proof.
  split.
  - apply (ComputeMandelbrotRow_out_of_bounds _ 2 1 1); [lia | cbn; lia].
  - apply (ComputeMandelbrotRow_out_of_bounds _ 2 (-1) 0); [lia | cbn; lia].
Defined.

Lemma worker_runs_ComputeMandelbrotRow_witness :
  exists w m',
    run 2 2 2 [Caller; Caller; Worker 0] (initial (replicate 4 S754_nan)) = Next w /\
    ComputeMandelbrotRow (buffer w) 2 0 = Some m' /\
    run 2 2 2 [Worker 0; Worker 0; Worker 0] w
    = Next (World (nextRow w) m' (<[0%nat := Claiming]> (threads w)) (caller_at w) (claims w)).
Proof.
  assert (exists w, run 2 2 2 [Caller; Caller; Worker 0] (initial (replicate 4 S754_nan))
                    = Next w /\ threads w !! 0%nat = Some (Computing 0 0))
    as (w & Hrun & Ht) by (eexists; split; [vm_compute; reflexivity | reflexivity]).
  assert (exists m', ComputeMandelbrotRow (buffer w) 2 0 = Some m') as (m' & Hrow).
  { destruct (ComputeMandelbrotRow (buffer w) 2 0) as [m'|] eqn:Hrow; [by exists m'|].
    exfalso. revert Hrow. injection Hrun as <-. vm_compute. discriminate. }
  exists w, m'. split; [exact Hrun|]. split; [exact Hrow|].
  apply (worker_runs_ComputeMandelbrotRow 2 2 2 0 0 w m'); [lia | exact Ht | exact Hrow].
Defined.

(** * The pass against a single thread *)

Section Sequential.
Variables (width height : Z).
Hypothesis Hwidth : 0 <= width.
Hypothesis Hint : width * height <= INT_MAX.

(** Rows [y0 .. height - 1] computed in order: the stores are those of
    the cells from [y0 * width] on, in increasing order; each of these
    cells ends with the count of its point, and the cells before them are
    left as they were. *)
Lemma rows_in_order_spec (k : nat) :
  forall y0 m,
    Z.of_nat (length (cells m)) = width * height ->
    0 <= y0 -> y0 + Z.of_nat k = height ->
    exists m',
      rows_in_order (seqZ y0 (Z.of_nat k)) m width = Some m' /\
      length (cells m') = length (cells m) /\
      trace m' = trace m ++ (Store <$> seqZ (y0 * width) (Z.of_nat k * width)) /\
      (forall i, Z.of_nat i < y0 * width -> cells m' !! i = cells m !! i) /\
      (forall y x, y0 <= y < height -> 0 <= x < width ->
         exists n,
           escape_iterations (col_c_re (scaleX width) x) (row_c_im y) = Some n /\
           cells m' !! Z.to_nat (y * width + x) = Some (F32.of_int n)).
Proof.
  induction k as [|k IH]; intros y0 m Hlen Hy0 Hk.
  - exists m. cbn. rewrite app_nil_r. repeat split; try done. intros; lia.
  - rewrite (seqZ_cons y0) by lia.
    replace (Z.pred (Z.of_nat (S k))) with (Z.of_nat k) by lia.
    cbn [rows_in_order]. unfold ComputeMandelbrotRow.
    assert (0 <= y0 < height) as Hrow by lia.
    destruct (row_loop_spec width height y0 Hwidth Hint Hrow (Z.to_nat width) 0 m)
      as (m1 & Hloop & Htrace1 & Hlen1 & Hframe1 & Hrow1); [done | lia | lia |].
    rewrite Z2Nat.id in Hloop, Htrace1 by done. rewrite Z.add_0_r in Htrace1.
    rewrite Hloop.
    destruct (IH (Z.succ y0) m1) as (m' & Hrows & Hlen' & Htrace' & Hframe' & Hdone);
      [by rewrite Hlen1 | lia | lia |].
    exists m'. split; [done|]. split; [congruence|]. split; [|split].
    + rewrite Htrace', Htrace1, <- app_assoc, <- fmap_app. do 2 f_equal.
      replace (Z.of_nat (S k) * width) with (width + Z.of_nat k * width) by lia.
      rewrite seqZ_app by nia. do 2 f_equal. lia.
    + intros i Hi. rewrite Hframe' by nia. apply Hframe1. lia.
    + intros y x Hy Hx. destruct (decide (y = y0)) as [->|Hne]; [|apply Hdone; lia].
      destruct (Hrow1 x) as (n & Hn & _ & Hcell); [lia|].
      exists n. split; [done|]. rewrite Hframe'; [done|]. nia.
Qed.
End Sequential.

(** The concurrent pass computes what one thread calling
    [ComputeMandelbrotRow] for the rows [0, 1, ..., height - 1] in order
    computes: the same buffer, by the same stores in another order. *)
Theorem pass_equals_rows_in_order
    (width height W : Z) (buffer0 : list float) (sched : list actor) (w : world) :
  0 <= width -> 0 <= height -> 1 <= W <= INT_MAX ->
  width * height <= INT_MAX -> Z.of_nat (length buffer0) = width * height ->
  run width height W sched (initial buffer0) = Next w -> caller_at w = Returned ->
  exists m,
    rows_in_order (seqZ 0 height) (Memory buffer0 []) width = Some m /\
    cells (buffer w) = cells m /\
    trace m = Store <$> seqZ 0 (width * height) /\
    trace (buffer w) ≡ₚ trace m.
Proof.
  intros Hwidth Hheight HW Hint Hsize Hrun Hret.
  destruct (rows_in_order_spec width height Hwidth Hint (Z.to_nat height) 0
              (Memory buffer0 []))
    as (m & Hrows & Hlen & Htrace & _ & Hdone); [done | lia | lia |].
  rewrite Z2Nat.id in Hrows, Htrace by done. cbn in Hlen, Htrace.
  replace (height * width) with (width * height) in Htrace by lia.
  pose proof (pass_invariant _ _ _ _ _ _ Hwidth Hheight Hint Hsize Hrun) as Hinv.
  exists m. split; [done|]. split; [|split; [done|]].
  - apply list_eq. intros i.
    destruct (decide (Z.of_nat i < width * height)) as [Hi|Hi].
    + destruct (cell_index_split width height (Z.of_nat i)) as (y & x & Heq & Hy & Hx);
        [done | lia |].
      destruct (pass_returned_pixel width height W buffer0 sched w y x)
        as (n1 & Hn1 & Hcell1 & _); try done.
      destruct (Hdone y x) as (n2 & Hn2 & Hcell2); [lia | done |].
      rewrite <- Heq, Nat2Z.id in Hcell1, Hcell2. congruence.
    + pose proof (inv_length _ _ _ _ _ Hinv).
      rewrite !(proj2 (lookup_ge_None _ _)); [done | lia | lia].
  - rewrite Htrace. eapply (returned_trace width height W buffer0); try done; lia.
Qed.

Lemma pass_equals_rows_in_order_witness :
  let sched :=
    [Caller; Caller; Worker 0; Caller; Worker 1; Worker 1; Worker 0; Caller; Worker 0;
     Worker 0; Worker 1; Worker 0; Caller; Worker 1; Worker 1; Caller; Caller] in
  exists w m,
    run 2 2 2 sched (initial (replicate 4 S754_nan)) = Next w /\
    rows_in_order [0; 1] (Memory (replicate 4 S754_nan) []) 2 = Some m /\
    cells (buffer w) = cells m /\
    trace (buffer w) = [Store 2; Store 0; Store 1; Store 3] /\
    trace m = [Store 0; Store 1; Store 2; Store 3].
Proof.
  intros sched.
  assert (exists w, run 2 2 2 sched (initial (replicate 4 S754_nan)) = Next w /\
                    caller_at w = Returned /\
                    trace (buffer w) = [Store 2; Store 0; Store 1; Store 3])
    as (w & Hrun & Hret & Htrace)
    by (eexists; split; [vm_compute; reflexivity | split; reflexivity]).
  destruct (pass_equals_rows_in_order 2 2 2 (replicate 4 S754_nan) sched w)
    as (m & Hrows & Hcells & Htrace_m & _);
    first [exact Hrun | exact Hret | reflexivity | unfold INT_MAX; lia | idtac].
  exists w, m. split; [exact Hrun|]. split; [exact Hrows|]. split; [exact Hcells|].
  split; [exact Htrace | exact Htrace_m].
Defined.

(** * The plane points of the pixels *)

(** The order of [SFcompare] is transitive. *)
Lemma SFltb_trans x y z : SFltb x y = true -> SFltb y z = true -> SFltb x z = true.
Proof.
  unfold SFltb.
  destruct x as [sx|sx| |sx mx ex], y as [sy|sy| |sy my ey], z as [sz|sz| |sz mz ez];
    cbn; try done;
    try (destruct sx; done); try (destruct sy; done); try (destruct sz; done);
    try (destruct sx, sy; done); try (destruct sy, sz; done); try (destruct sx, sz; done);
    try (destruct sx, sy, sz; done).
  destruct sx, sy, sz; try done;
    destruct (Z.compare_spec ex ey), (Z.compare_spec ey ez), (Z.compare_spec ex ez);
    subst; try done; try lia;
    repeat match goal with
           | |- context [Pos.compare_cont Eq ?p ?q] =>
               change (Pos.compare_cont Eq p q) with (Pos.compare p q)
           end;
    destruct (Pos.compare_spec mx my), (Pos.compare_spec my mz), (Pos.compare_spec mx mz);
    subst; cbn; try done; lia.
Qed.

(** A sequence whose neighbours increase increases. *)
Lemma increasing_from_neighbours (f : Z -> float) (n : Z) :
  forallb (fun x => SFltb (f x) (f (x + 1))) (seqZ 0 (n - 1)) = true ->
  forall x x', 0 <= x < x' -> x' < n -> SFltb (f x) (f x') = true.
Proof.
  intros Hcheck.
  assert (forall x, 0 <= x < n - 1 -> SFltb (f x) (f (x + 1)) = true) as Hnext.
  { intros x Hx. rewrite forallb_forall in Hcheck. apply Hcheck.
    apply list_elem_of_In, elem_of_seqZ. lia. }
  intros x x' Hx Hx'.
  replace x' with (x + 1 + Z.of_nat (Z.to_nat (x' - x - 1))) in * by lia.
  induction (Z.to_nat (x' - x - 1)) as [|d IH].
  - rewrite Z.add_0_r. apply Hnext. lia.
  - eapply SFltb_trans; [apply IH; lia|].
    replace (x + 1 + Z.of_nat (S d)) with (x + 1 + Z.of_nat d + 1) by lia.
    apply Hnext. lia.
Qed.

(** For the window [main] asks for ([width = screenWidth]): the first
    column is at [MIN_RE], the real coordinate increases strictly from
    column to column, and every column is left of [MAX_RE]. *)
Theorem window_columns_increase (x x' : Z) :
  0 <= x < x' -> x' < screenWidth ->
  let c_re := col_c_re (scaleX screenWidth) in
  c_re 0 = MIN_RE /\
  F32.ltb (c_re x) (c_re x') = true /\
  F32.ltb (c_re x') MAX_RE = true.
Proof.
  intros Hx Hx' c_re.
  assert (forall a b, 0 <= a < b -> b < screenWidth -> F32.ltb (c_re a) (c_re b) = true)
    as Hmono.
  { apply increasing_from_neighbours. vm_compute. reflexivity. }
  split; [vm_compute; reflexivity|]. split; [by apply Hmono|].
  assert (F32.ltb (c_re (screenWidth - 1)) MAX_RE = true) as Hlast
    by (vm_compute; reflexivity).
  destruct (decide (x' = screenWidth - 1)) as [->|Hne]; [done|].
  eapply SFltb_trans; [|exact Hlast]. apply Hmono; unfold screenWidth in *; lia.
Qed.

Lemma window_columns_increase_witness :
  F32.ltb (col_c_re (scaleX screenWidth) 699) (col_c_re (scaleX screenWidth) 700) = true /\
  F32.ltb (col_c_re (scaleX screenWidth) 700) MAX_RE = true.
Proof.
  exact (proj2 (window_columns_increase 699 700 ltac:(lia) ltac:(unfold screenWidth; lia))).
Defined.

(** The imaginary coordinate of the rows [0 .. screenHeight - 1]: row 0
    is at [MIN_IM], the coordinate increases strictly from row to row,
    and every row is below [MAX_IM]. *)
Theorem window_rows_increase (y y' : Z) :
  0 <= y < y' -> y' < screenHeight ->
  row_c_im 0 = MIN_IM /\
  F32.ltb (row_c_im y) (row_c_im y') = true /\
  F32.ltb (row_c_im y') MAX_IM = true.
Proof.
  intros Hy Hy'.
  assert (forall a b, 0 <= a < b -> b < screenHeight -> F32.ltb (row_c_im a) (row_c_im b) = true)
    as Hmono.
  { apply increasing_from_neighbours. vm_compute. reflexivity. }
  split; [vm_compute; reflexivity|]. split; [by apply Hmono|].
  assert (F32.ltb (row_c_im (screenHeight - 1)) MAX_IM = true) as Hlast
    by (vm_compute; reflexivity).
  destruct (decide (y' = screenHeight - 1)) as [->|Hne]; [done|].
  eapply SFltb_trans; [|exact Hlast]. apply Hmono; unfold screenHeight in *; lia.
Qed.

Lemma window_rows_increase_witness :
  F32.ltb (row_c_im 399) (row_c_im 400) = true /\
  F32.ltb (row_c_im 400) MAX_IM = true.
Proof.
  exact (proj2 (window_rows_increase 399 400 ltac:(lia) ltac:(unfold screenHeight; lia))).
Defined.

(** * The colour of every count *)

Lemma Color_eqb_eq c d : Color_eqb c d = true <-> c = d.
Proof.
  destruct c as [r1 g1 b1 a1], d as [r2 g2 b2 a2]. unfold Color_eqb. cbn.
  rewrite !andb_true_iff, !Z.eqb_eq. split; [intros [[[-> ->] ->] ->]; done|].
  by intros [= -> -> -> ->].
Qed.

Lemma all_counts_spec check n :
  forall from,
    all_counts check from n = true ->
    forall count, from <= count < from + Z.of_nat n -> check count = true.
Proof.
  induction n as [|n IH]; intros from Hall count Hcount; [lia|].
  cbn [all_counts] in Hall. apply andb_true_iff in Hall as [Hhere Hrest].
  destruct (decide (count = from)) as [->|Hne]; [done|].
  apply (IH (from + 1) Hrest). lia.
Qed.

Lemma drawn_by_range_spec count :
  0 <= count ->
  (drawn_by_range count = Undefined <-> 623 <= count <= 71074) /\
  (drawn_by_range count = Black <-> count = 0 \/ 99913 <= count).
Proof.
  intros Hcount. unfold drawn_by_range.
  destruct (Z.eqb_spec count 0), (Z.ltb_spec count 623), (Z.ltb_spec count 71075),
    (Z.ltb_spec count 99913); try lia;
    (split;
     (split;
      [ intros Hx; first [discriminate Hx | lia | (left; lia) | (right; lia)]
      | intros Hx; first [reflexivity | exfalso; lia | exfalso; destruct Hx; lia] ])).
Qed.

(** The two ways of classifying a count agree on the counts 0 to 2000
    and 99000 to [MAX_ITERATIONS]: all of these are evaluated. *)
Lemma drawn_as_low_counts :
  all_counts (fun count => drawn_eqb (drawn_as count) (drawn_by_range count))
             0 2001 = true.
Proof. vm_cast_no_check (eq_refl true). Qed.

Lemma drawn_as_high_counts :
  all_counts (fun count => drawn_eqb (drawn_as count) (drawn_by_range count))
             99000 1001 = true.
Proof. vm_cast_no_check (eq_refl true). Qed.

Lemma drawn_as_by_range count :
  0 <= count <= 2000 \/ 99000 <= count <= MAX_ITERATIONS ->
  drawn_as count = drawn_by_range count.
Proof.
  intros Hcount.
  assert (drawn_eqb (drawn_as count) (drawn_by_range count) = true) as Hcheck.
  { destruct Hcount as [Hlow|Hhigh].
    - apply (all_counts_spec _ _ _ drawn_as_low_counts count). lia.
    - apply (all_counts_spec _ _ _ drawn_as_high_counts count).
      unfold MAX_ITERATIONS in Hhigh. lia. }
  by destruct (drawn_as count), (drawn_by_range count).
Qed.

(** What [GetColorFromIterations] makes of the counts at both ends of
    the scale, with [maxIterations = MAX_ITERATIONS].  Up to 2000: count 0
    is black, the counts 1 to 622 get a defined colour that is not black,
    and from 623 on a channel of the gradient exceeds 255, so that its
    conversion to [unsigned char] is undefined.  From 99000 on: every
    count has a defined colour, which is black exactly from 99913 on. *)
Theorem GetColorFromIterations_by_count (count : Z) :
  0 <= count <= 2000 \/ 99000 <= count <= MAX_ITERATIONS ->
  let colour := GetColorFromIterations (F32.of_int count) MAX_ITERATIONS in
  (colour = None <-> 623 <= count <= 2000) /\
  (colour = Some BLACK <-> count = 0 \/ 99913 <= count).
Proof.
  intros Hcount. cbv zeta.
  pose proof (drawn_as_by_range count Hcount) as Hdrawn.
  destruct (drawn_by_range_spec count) as [Hundefined Hblack]; [lia|].
  rewrite <- Hdrawn in Hundefined, Hblack. clear Hdrawn. unfold drawn_as in *.
  assert (623 <= count <= 71074 <-> 623 <= count <= 2000) as Hwindow
    by (unfold MAX_ITERATIONS in Hcount; lia).
  rewrite Hwindow in Hundefined. clear Hwindow.
  destruct (GetColorFromIterations (F32.of_int count) MAX_ITERATIONS) as [c|].
  - destruct (Color_eqb c BLACK) eqn:Hc.
    + apply Color_eqb_eq in Hc as ->. split.
      * split; [discriminate|]. intros Hr. by apply Hundefined in Hr.
      * split; [intros _; by apply Hblack | done].
    + split.
      * split; [discriminate|]. intros Hr. by apply Hundefined in Hr.
      * split; [|intros Hr; by apply Hblack in Hr].
        intros [= ->]. vm_compute in Hc. discriminate Hc.
  - split.
    + split; [intros _; by apply Hundefined | done].
    + split; [discriminate|]. intros Hr. by apply Hblack in Hr.
Qed.

Lemma GetColorFromIterations_by_count_witness :
  GetColorFromIterations (F32.of_int 1000) MAX_ITERATIONS = None /\
  GetColorFromIterations (F32.of_int 99990) MAX_ITERATIONS = Some BLACK.
Proof.
  split.
  - apply (GetColorFromIterations_by_count 1000); lia.
  - apply (GetColorFromIterations_by_count 99990); [unfold MAX_ITERATIONS; lia|].
    right. lia.
Defined.

(** * The counts drawn black *)

Lemma GetColorFromIterations_constants :
  f_one = F32.of_int 1 /\ f_nine = F32.of_int 9 /\ f_fifteen = F32.of_int 15 /\
  f_255 = F32.of_int 255 /\ f_max = F32.of_int MAX_ITERATIONS.
Proof. repeat split; vm_compute; reflexivity. Qed.

(** A black result comes from the first branch or from red and green
    channels that both convert to zero. *)
Lemma GetColorFromIterations_black iterations maxIterations :
  GetColorFromIterations iterations maxIterations = Some BLACK ->
  F32.eqb iterations (F32.of_int maxIterations) = true \/
  let t := F32.sqrt (F32.div iterations (F32.of_int maxIterations)) in
  let one_t := F32.sub (F32.of_int 1) t in
  uchar_of_float
    (F32.mul (F32.mul (F32.mul (F32.mul (F32.of_int 9) one_t) t) t) (F32.of_int 255))
  = Some 0 /\
  uchar_of_float
    (F32.mul (F32.mul (F32.mul (F32.mul (F32.of_int 15) one_t) one_t) t) (F32.of_int 255))
  = Some 0.
Proof.
  unfold GetColorFromIterations.
  destruct (F32.eqb iterations (F32.of_int maxIterations)); [by left|].
  cbv zeta. intros Hblack. right.
  destruct (uchar_of_float _) as [red|]; [|discriminate Hblack].
  destruct (uchar_of_float _) as [green|]; [|discriminate Hblack].
  destruct (uchar_of_float _) as [blue|]; [|discriminate Hblack].
  injection Hblack as Hred Hgreen _. by rewrite Hred, Hgreen.
Qed.

Lemma not_black_check_sound count :
  not_black_check count = true ->
  GetColorFromIterations (F32.of_int count) MAX_ITERATIONS <> Some BLACK.
Proof.
  intros Hcheck Hblack. apply GetColorFromIterations_black in Hblack.
  destruct GetColorFromIterations_constants as (H1 & H9 & H15 & H255 & Hmax).
  unfold not_black_check, red_of, green_of in Hcheck. cbv zeta in Hcheck, Hblack.
  rewrite H1, H9, H15, H255, Hmax in Hcheck.
  destruct Hblack as [Heq|[Hred Hgreen]].
  - rewrite Heq in Hcheck. discriminate Hcheck.
  - rewrite Hred, Hgreen in Hcheck.
    destruct (F32.eqb _ _); discriminate Hcheck.
Qed.

Lemma black_check_sound count :
  black_check count = true ->
  GetColorFromIterations (F32.of_int count) MAX_ITERATIONS = Some BLACK.
Proof.
  unfold black_check.
  destruct (GetColorFromIterations _ _) as [c|]; [|discriminate].
  intros Hc. by apply Color_eqb_eq in Hc as ->.
Qed.

(** Every count from 1 to 99912 is evaluated, and so is every count from
    99913 to [MAX_ITERATIONS]. *)
Lemma not_black_1_to_99912 : all_counts not_black_check 1 (Z.to_nat 99912) = true.
Proof. vm_cast_no_check (eq_refl true). Qed.

Lemma black_99913_to_bound : all_counts black_check 99913 88 = true.
Proof. vm_cast_no_check (eq_refl true). Qed.

Lemma black_at_zero : black_check 0 = true.
Proof. vm_compute. reflexivity. Qed.

(** Outside the program's bound "black" is not "equal to the bound"
    either: binary32 rounds the count 2^24 + 1 to 2^24. *)
Lemma black_by_rounding :
  GetColorFromIterations (F32.of_int (2 ^ 24)) (2 ^ 24 + 1) = Some BLACK.
Proof. vm_compute. reflexivity. Qed.

(** C9, amended: a count equal to [maxIterations] is drawn black, for
    every [maxIterations]; and with the bound of the program,
    [maxIterations = MAX_ITERATIONS = 100000], a count in
    [0, MAX_ITERATIONS] has the defined colour black exactly when it is 0
    or at least 99913 (which includes the bound itself): every count from 1
    to 99912 is given another colour or none. *)
Theorem GetColorFromIterations_black_exactly (maxIterations count : Z) :
  0 <= count <= MAX_ITERATIONS ->
  MAX_ITERATIONS = 100000 /\
  GetColorFromIterations (F32.of_int maxIterations) maxIterations = Some BLACK /\
  (GetColorFromIterations (F32.of_int count) MAX_ITERATIONS = Some BLACK
   <-> count = 0 \/ 99913 <= count).
Proof.
  intros Hcount. split; [reflexivity|]. split.
  { unfold GetColorFromIterations, F32.eqb, SFeqb.
    by rewrite SFcompare_refl by apply of_int_not_nan. }
  assert (MAX_ITERATIONS = 100000) as Hmax by reflexivity.
  split.
  - intros Hblack.
    destruct (decide (count = 0)) as [|Hne]; [by left|]. right.
    destruct (decide (99913 <= count)) as [|Hlow]; [done|]. exfalso.
    apply (not_black_check_sound count); [|exact Hblack].
    apply (all_counts_spec _ _ _ not_black_1_to_99912 count).
    rewrite Z2Nat.id by lia. lia.
  - intros [->|Hhigh]; apply black_check_sound; [exact black_at_zero|].
    apply (all_counts_spec _ _ _ black_99913_to_bound count). lia.
Qed.

Lemma GetColorFromIterations_black_exactly_witness :
  GetColorFromIterations (F32.of_int 7) 7 = Some BLACK /\
  GetColorFromIterations (F32.of_int 50000) MAX_ITERATIONS <> Some BLACK /\
  GetColorFromIterations (F32.of_int 99950) MAX_ITERATIONS = Some BLACK.
Proof.
  assert (0 <= 50000 <= MAX_ITERATIONS) as Hmid by (unfold MAX_ITERATIONS; lia).
  assert (0 <= 99950 <= MAX_ITERATIONS) as Hhigh by (unfold MAX_ITERATIONS; lia).
  destruct (GetColorFromIterations_black_exactly 7 50000 Hmid) as (_ & Hbound & Hiff).
  destruct (GetColorFromIterations_black_exactly 7 99950 Hhigh) as (_ & _ & Hiff').
  split; [exact Hbound|]. split.
  - intros Hblack. apply Hiff in Hblack. lia.
  - apply Hiff'. right. lia.
Defined.
